(** * The CEL admission filter of k8s.io/apiserver (plugin/cel/filter.go)

    A shallow embedding of [filterCompiler.Compile], [filter.ForInput],
    [filter.CompilationErrors], the activation [evaluationActivation] and the
    two conversion helpers, followed by the properties the specification
    states about them.

    Conventions of the embedding.
    - A Go interface or pointer value that may be nil is an [option]; a map
      that may be the nil map is an [option] too.
    - A Go [error] is represented by the text its [Error()] method prints.
    - A helper returning [(T, error)] with exactly one meaningful component is
      a [result]; [ForInput] and [Program.Eval], whose two components are both
      inspected, return a pair.
    - Methods run in a state monad over [World]: the receiver the method is
      invoked on, the wall clock read by [time.Now]/[time.Since], and the
      trace of the [Program.Eval] invocations made so far.
    - Accessors stored in a [CompilationResult] are non-nil, receivers and
      [versionedAttr] are non-nil pointers, objects behind [runtime.Object]
      are pointers, and a program's [Eval] returns (it does not panic). *)

From Stdlib Require Import ssreflect ZArith.
From stdpp Require Import base tactics option list strings gmap.

Set Default Proof Using "Type".
Set Warnings "-rewrite-rw".

(** ** Errors *)

(** A Go [error]: [errors_New s] is [errors.New(s)], [error_Error] its text. *)
Record error := errors_New { error_Error : string }.

(** The outcome of a Go function returning [(T, error)]. *)
Inductive result (A : Type) :=
| Ok (a : A)
| Err (err : error).
Arguments Ok {A} a.
Arguments Err {A} err.

(** [time.Time] and [time.Duration], in nanoseconds. *)
Definition Time := Z.
Definition Duration := Z.

(** ** The records declared next to filter.go *)

Module CompilationResult.
(** [CompilationResult{Program, Error, ExpressionAccessor}]. *)
Record t {Prog EA : Type} := mk {
  Program : option Prog;
  Error : option error;
  ExpressionAccessor : EA
}.
Arguments t : clear implicits.
Arguments mk {Prog EA} _ _ _.
End CompilationResult.

Module EvaluationResult.
(** [EvaluationResult{EvalResult, ExpressionAccessor, Elapsed, Error}];
    the accessor is an interface value, nil in the zero value. *)
Record t {Val EA : Type} := mk {
  EvalResult : option Val;
  ExpressionAccessor : option EA;
  Elapsed : Duration;
  Error : option error
}.
Arguments t : clear implicits.
Arguments mk {Val EA} _ _ _ _.

Section Fields.
Context {Val EA : Type}.

(** The zero value [make] fills a fresh slice with. *)
Definition zero : t Val EA := mk None None 0%Z None.

(** Field assignments through [&evaluations[i]]. *)
Definition setExpressionAccessor (a : option EA) (e : t Val EA) : t Val EA :=
  mk (EvalResult e) a (Elapsed e) (Error e).
Definition setError (err : option error) (e : t Val EA) : t Val EA :=
  mk (EvalResult e) (ExpressionAccessor e) (Elapsed e) err.
Definition setElapsed (d : Duration) (e : t Val EA) : t Val EA :=
  mk (EvalResult e) (ExpressionAccessor e) d (Error e).
Definition setEvalResult (v : option Val) (e : t Val EA) : t Val EA :=
  mk v (ExpressionAccessor e) (Elapsed e) (Error e).
End Fields.
End EvaluationResult.

(** Modelled from the spec: the four variable names, constants declared
    outside filter.go ([ObjectVarName] and its siblings); the specification
    names them [object], [oldObject], [params] and [request]. *)
Definition ObjectVarName : string := "object".
Definition OldObjectVarName : string := "oldObject".
Definition ParamsVarName : string := "params".
Definition RequestVarName : string := "request".

(** The collaborators' data: CEL values ([ref.Val]), the contents of a non-nil
    [map[string]interface{}], typed API objects, the admission request record,
    and the interface [ExpressionAccessor] with its one method. *)
Class Types := {
  Val : Type;
  Mapping : Type;
  TypedObject : Type;
  AdmissionRequest : Type;
  ExpressionAccessor : Type;
  GetExpression : ExpressionAccessor → string
}.

Section Filter.
Context {T : Types}.

(** ** Values of type [interface{}] *)

Inductive any :=
| Nil                                         (* the nil interface *)
| ObjectPtr (p : option TypedObject)          (* pointer to an API object *)
| RequestPtr (p : option AdmissionRequest)    (* *admissionv1.AdmissionRequest *)
| MapVal (m : option Mapping).                (* map[string]interface{} *)

(** [runtime.Object]: the nil interface, or a (possibly nil) pointer. *)
Inductive runtime_Object :=
| NilObject
| ObjectOf (p : option TypedObject).

Definition asAny (r : runtime_Object) : any :=
  match r with
  | NilObject => Nil
  | ObjectOf p => ObjectPtr p
  end.

(** [obj == nil] on an interface value. *)
Definition isNilInterface (obj : any) : bool :=
  match obj with
  | Nil => true
  | _ => false
  end.

(** [reflect.ValueOf(obj).IsNil()]; only reached for a non-nil interface,
    since [||] short-circuits. *)
Definition reflect_IsNil (obj : any) : bool :=
  match obj with
  | Nil => true
  | ObjectPtr None | RequestPtr None | MapVal None => true
  | ObjectPtr (Some _) | RequestPtr (Some _) | MapVal (Some _) => false
  end.

(** ** Collaborators *)

(** [unstructured.Unstructured]. *)
Record Unstructured := { Object : option Mapping }.

(** [interpreter.Activation]: what a program sees of its variables. *)
#[warnings="-register-all"]
Inductive Activation := {
  Activation_ResolveName : string → any * bool;
  Activation_Parent : option Activation
}.

(** [cel.Program]; the [*EvalDetails] component is dropped, as the one
    caller does. *)
Record Program := { Eval : Activation → option Val * option error }.

Definition CompilationResult := CompilationResult.t Program ExpressionAccessor.
Definition EvaluationResult := EvaluationResult.t Val ExpressionAccessor.

(** The functions called from filter.go and defined elsewhere:
    [runtime.DefaultUnstructuredConverter.ToUnstructured] and the expression
    compiler [CompileCELExpression]. *)
Class Collaborators := {
  ToUnstructured : any → result (option Mapping);
  CompileCELExpression : ExpressionAccessor → bool → CompilationResult
}.
Context {C : Collaborators}.

(** ** The activation *)

Record evaluationActivation := {
  object : any;
  oldObject : any;
  params : any;
  request : any
}.

Definition ResolveName (a : evaluationActivation) (name : string) : any * bool :=
  if String.eqb name ObjectVarName then (object a, true)
  else if String.eqb name OldObjectVarName then (oldObject a, true)
  else if String.eqb name ParamsVarName then (params a, true)
  else if String.eqb name RequestVarName then (request a, true)
  else (Nil, false).

Definition Parent (a : evaluationActivation) : option Activation := None.

(** The value [va] passed to [Eval]: the struct seen through the two
    methods that make it an [interpreter.Activation]. *)
Definition asActivation (a : evaluationActivation) : Activation :=
  {| Activation_ResolveName := ResolveName a; Activation_Parent := Parent a |}.

(** ** The filter and the world its methods run in *)

Record filter := { compilationResults : list CompilationResult }.

(** [NewFilter]: the interface value wrapping [&filter{...}]. *)
Definition NewFilter (compilationResults : list CompilationResult) : option filter :=
  Some {| compilationResults := compilationResults |}.

(** [Compile]: [None] is the nil [Filter]. The loop stores, for every
    index of the input, the outcome of compiling that accessor at the same
    index of a fresh slice of the same length. *)
Definition Compile (expressionAccessors : list ExpressionAccessor) (hasParam : bool) : option filter :=
  if Nat.eqb (length expressionAccessors) 0 then None
  else
    let compilationResults :=
      (λ expressionAccessor, CompileCELExpression expressionAccessor hasParam)
        <$> expressionAccessors in
    NewFilter compilationResults.

(** One invocation of [Program.Eval], as recorded in the trace. *)
Record EvalCall := {
  call_index : nat;
  call_program : Program;
  call_activation : Activation
}.

Record World := {
  this : filter;             (* the receiver *)
  wallclock : nat → Time;    (* successive readings of the clock *)
  ticks : nat;               (* readings consumed so far *)
  evalCalls : list EvalCall  (* programs run so far, oldest first *)
}.

Definition M (A : Type) : Type := World → A * World.

Definition ret {A} (a : A) : M A := λ w, (a, w).
Definition bind {A B} (c : M A) (k : A → M B) : M B :=
  λ w, let (a, w') := c w in k a w'.

Notation "'let*' x := c 'in' k" := (bind c (λ x, k))
  (at level 10, x name, c at level 100, k at level 200, only parsing).

Definition getThis : M filter := λ w, (this w, w).

Definition readClock : M Time := λ w,
  (wallclock w (ticks w),
   {| this := this w; wallclock := wallclock w; ticks := S (ticks w);
      evalCalls := evalCalls w |}).

(** [time.Now()] and [time.Since(t)]. *)
Definition time_Now : M Time := readClock.
Definition time_Since (t : Time) : M Duration :=
  let* now := readClock in ret (now - t)%Z.

(** [program.Eval(va)] made while filling slot [i]. *)
Definition callEval (i : nat) (program : Program) (va : Activation)
  : M (option Val * option error) := λ w,
  (Eval program va,
   {| this := this w; wallclock := wallclock w; ticks := ticks w;
      evalCalls := evalCalls w ++ [{| call_index := i; call_program := program;
                                      call_activation := va |}] |}).

(** ** Input conversion *)

Definition convertObjectToUnstructured (obj : any) : result Unstructured :=
  if isNilInterface obj || reflect_IsNil obj then Ok {| Object := None |}
  else
    match ToUnstructured obj with
    | Err err => Err err
    | Ok ret => Ok {| Object := ret |}
    end.

Definition objectToResolveVal (r : runtime_Object) : result any :=
  if isNilInterface (asAny r) || reflect_IsNil (asAny r) then Ok Nil
  else
    match convertObjectToUnstructured (asAny r) with
    | Err err => Err err
    | Ok v => Ok (MapVal (Object v))
    end.

(** ** Evaluation *)

(** The two fields of [generic.VersionedAttributes] that are read. *)
Record VersionedAttributes := {
  VersionedOldObject : runtime_Object;
  VersionedObject : runtime_Object
}.

(** The body of the [range] loop for index [i]; every field is written
    through the pointer [&evaluations[i]]. *)
Definition evaluateSlot (va : evaluationActivation) (i : nat)
    (compilationResult : CompilationResult)
    (evaluations : list EvaluationResult) : M (list EvaluationResult) :=
  let evaluations :=
    alter (EvaluationResult.setExpressionAccessor
             (Some (CompilationResult.ExpressionAccessor compilationResult)))
          i evaluations in
  match CompilationResult.Error compilationResult with
  | Some cerr =>
      ret (alter (EvaluationResult.setError
                    (Some (errors_New ("compilation error: " +:+ error_Error cerr))))
                 i evaluations)
  | None =>
      match CompilationResult.Program compilationResult with
      | None =>
          ret (alter (EvaluationResult.setError
                        (Some (errors_New "unexpected internal error compiling expression")))
                     i evaluations)
      | Some program =>
          let* t1 := time_Now in
          let* evaluated := callEval i program (asActivation va) in
          let* elapsed := time_Since t1 in
          let evaluations := alter (EvaluationResult.setElapsed elapsed) i evaluations in
          match evaluated with
          | (_, Some err) =>
              ret (alter (EvaluationResult.setError
                            (Some (errors_New
                               ("expression '"
                                +:+ GetExpression
                                      (CompilationResult.ExpressionAccessor compilationResult)
                                +:+ "' resulted in error: " +:+ error_Error err))))
                         i evaluations)
          | (evalResult, None) =>
              ret (alter (EvaluationResult.setEvalResult evalResult) i evaluations)
          end
      end
  end.

(** [for i, compilationResult := range f.compilationResults], entered at
    index [i] with the results not yet visited. *)
Fixpoint rangeLoop (va : evaluationActivation) (i : nat)
    (rest : list CompilationResult)
    (evaluations : list EvaluationResult) : M (list EvaluationResult) :=
  match rest with
  | [] => ret evaluations
  | compilationResult :: rest =>
      let* evaluations := evaluateSlot va i compilationResult evaluations in
      rangeLoop va (S i) rest evaluations
  end.

(** [request] seen as the [interface{}] argument of the converter. *)
Definition requestAsAny (request : option AdmissionRequest) : any :=
  RequestPtr request.

Definition ForInput (versionedAttr : VersionedAttributes)
    (versionedParams : runtime_Object) (request : option AdmissionRequest)
  : M (list EvaluationResult * option error) :=
  let* f := getThis in
  let evaluations :=
    replicate (length (compilationResults f)) EvaluationResult.zero in
  match objectToResolveVal (VersionedOldObject versionedAttr) with
  | Err err => ret ([], Some err)
  | Ok oldObjectVal =>
  match objectToResolveVal (VersionedObject versionedAttr) with
  | Err err => ret ([], Some err)
  | Ok objectVal =>
  match objectToResolveVal versionedParams with
  | Err err => ret ([], Some err)
  | Ok paramsVal =>
  match convertObjectToUnstructured (requestAsAny request) with
  | Err err => ret ([], Some err)
  | Ok requestVal =>
      let va := {| object := objectVal; oldObject := oldObjectVal;
                   params := paramsVal;
                   request := MapVal (Object requestVal) |} in
      let* evaluations := rangeLoop va 0 (compilationResults f) evaluations in
      ret (evaluations, None)
  end end end end.

(** [CompilationErrors]: the loop appends to a slice that starts empty. *)
Definition CompilationErrors : M (list error) :=
  let* e := getThis in
  let compilationErrors :=
    foldl (λ compilationErrors result,
             match CompilationResult.Error result with
             | Some err => compilationErrors ++ [err]
             | None => compilationErrors
             end)
          [] (compilationResults e) in
  ret compilationErrors.

End Filter.

(** ** What one iteration of the loop amounts to

    The four outcomes of an iteration that starts on a zero slot, as a
    relation between the world before, the slot written and the world after;
    [evaluateSlot] is shown below to refine it. *)

Section Iteration.
Context {T : Types} {C : Collaborators}.

(** The world after [time.Now], [program.Eval(va)] and [time.Since]. *)
Definition afterEval (i : nat) (program : Program) (va : Activation)
    (w : World) : World :=
  {| this := this w; wallclock := wallclock w; ticks := S (S (ticks w));
     evalCalls := evalCalls w ++ [{| call_index := i; call_program := program;
                                     call_activation := va |}] |}.

(** The duration measured around an execution started in world [w]. *)
Definition measured (w : World) : Duration :=
  (wallclock w (S (ticks w)) - wallclock w (ticks w))%Z.

Inductive slotStep (va : evaluationActivation) (i : nat)
    (cr : CompilationResult) (w : World) : EvaluationResult → World → Prop :=
| step_compile_error cerr :
    CompilationResult.Error cr = Some cerr →
    slotStep va i cr w
      (EvaluationResult.mk None (Some (CompilationResult.ExpressionAccessor cr)) 0%Z
         (Some (errors_New ("compilation error: " +:+ error_Error cerr))))
      w
| step_internal_error :
    CompilationResult.Error cr = None →
    CompilationResult.Program cr = None →
    slotStep va i cr w
      (EvaluationResult.mk None (Some (CompilationResult.ExpressionAccessor cr)) 0%Z
         (Some (errors_New "unexpected internal error compiling expression")))
      w
| step_eval_error program v err :
    CompilationResult.Error cr = None →
    CompilationResult.Program cr = Some program →
    Eval program (asActivation va) = (v, Some err) →
    slotStep va i cr w
      (EvaluationResult.mk None (Some (CompilationResult.ExpressionAccessor cr))
         (measured w)
         (Some (errors_New
            ("expression '"
             +:+ GetExpression (CompilationResult.ExpressionAccessor cr)
             +:+ "' resulted in error: " +:+ error_Error err))))
      (afterEval i program (asActivation va) w)
| step_value program v :
    CompilationResult.Error cr = None →
    CompilationResult.Program cr = Some program →
    Eval program (asActivation va) = (v, None) →
    slotStep va i cr w
      (EvaluationResult.mk v (Some (CompilationResult.ExpressionAccessor cr))
         (measured w) None)
      (afterEval i program (asActivation va) w).

(** The iterations for indices [i], [i+1], ... over the remaining results. *)
Inductive loopSteps (va : evaluationActivation)
    : nat → list CompilationResult → World → list EvaluationResult → World → Prop :=
| loop_done i w : loopSteps va i [] w [] w
| loop_next i cr crs w ev w1 evs w' :
    slotStep va i cr w ev w1 →
    loopSteps va (S i) crs w1 evs w' →
    loopSteps va i (cr :: crs) w (ev :: evs) w'.

End Iteration.

(** ** The programs a call runs *)

Section Trace.
Context {T : Types} {C : Collaborators}.

(** The program the loop runs for a result: none when the result carries a
    compile error (checked first) or has no program. *)
Definition runnable (cr : CompilationResult) : option Program :=
  match CompilationResult.Error cr with
  | Some _ => None
  | None => CompilationResult.Program cr
  end.

(** The calls of [Program.Eval] a loop entered at index [i] makes on [va]. *)
Fixpoint expectedCalls (va : evaluationActivation) (i : nat)
    (crs : list CompilationResult) : list EvalCall :=
  match crs with
  | [] => []
  | cr :: crs =>
      match runnable cr with
      | Some program =>
          [{| call_index := i; call_program := program;
              call_activation := asActivation va |}]
      | None => []
      end ++ expectedCalls va (S i) crs
  end.

End Trace.

(** ** The admission request built from the attributes *)

(** [schema.GroupVersionKind] and [schema.GroupVersionResource]. *)
Module SchemaKind.
Record t := mk { Group : string; Version : string; Kind : string }.
End SchemaKind.

Module SchemaResource.
Record t := mk { Group : string; Version : string; Resource : string }.
End SchemaResource.

(** [metav1.GroupVersionKind] and [metav1.GroupVersionResource]. *)
Module MetaKind.
Record t := mk { Group : string; Version : string; Kind : string }.
End MetaKind.

Module MetaResource.
Record t := mk { Group : string; Version : string; Resource : string }.
End MetaResource.

(** [user.Info], by the answers of its four getters; a nil slice is the
    empty list and a nil map the empty map. *)
Module UserInfoSource.
Record t := mk {
  GetName : string;
  GetUID : string;
  GetGroups : list string;
  GetExtra : gmap string (list string)
}.
End UserInfoSource.

(** [authenticationv1.UserInfo]; [Extra] is [None] for the nil map. *)
Module UserInfo.
Record t := mk {
  Username : string;
  UID : string;
  Groups : list string;
  Extra : option (gmap string (list string))
}.
(** The zero value of [var userInfo authenticationv1.UserInfo]. *)
Definition zero : t := mk "" "" [] None.
End UserInfo.

(** [runtime.RawExtension]. *)
Module RawExtension.
Record t {Obj : Type} := mk { Raw : list Byte.byte; Object : Obj }.
Arguments t : clear implicits.
Arguments mk {Obj} _ _.
End RawExtension.

(** [admission.Attributes], by the answers of the getters that
    [CreateAdmissionRequest] calls. *)
Module Attributes.
Record t {Obj : Type} := mk {
  GetKind : SchemaKind.t;
  GetResource : SchemaResource.t;
  GetSubresource : string;
  GetName : string;
  GetNamespace : string;
  GetOperation : string;
  GetUserInfo : option UserInfoSource.t;
  IsDryRun : bool;
  GetOperationOptions : Obj
}.
Arguments t : clear implicits.
Arguments mk {Obj} _ _ _ _ _ _ _ _ _.
End Attributes.

(** [admissionv1.AdmissionRequest]. *)
Module Request.
Record t {Obj : Type} := mk {
  UID : string;
  Kind : MetaKind.t;
  Resource : MetaResource.t;
  SubResource : string;
  RequestKind : option MetaKind.t;
  RequestResource : option MetaResource.t;
  RequestSubResource : string;
  Name : string;
  Namespace : string;
  Operation : string;
  UserInfo : UserInfo.t;
  Object : RawExtension.t Obj;
  OldObject : RawExtension.t Obj;
  DryRun : option bool;
  Options : RawExtension.t Obj
}.
Arguments t : clear implicits.
Arguments mk {Obj} _ _ _ _ _ _ _ _ _ _ _ _ _ _ _.
End Request.

Section CreateAdmissionRequest.
Context {T : Types}.

(** The order in which [range] visits the entries of a map: Go leaves it
    unspecified, so it is a parameter. *)
Variable rangeOrder : gmap string (list string) → list (string * list string).

(** [for key, val := range aUserInfo.GetExtra() { userInfo.Extra[key] = val }]
    on the map made by [make]. *)
Definition copyExtra (extra : gmap string (list string))
    : gmap string (list string) :=
  foldl (λ Extra entry, <[entry.1 := entry.2]> Extra) ∅ (rangeOrder extra).

Definition CreateAdmissionRequest (attr : Attributes.t runtime_Object)
    : option (Request.t runtime_Object) :=
  let gvk := Attributes.GetKind attr in
  let gvr := Attributes.GetResource attr in
  let subresource := Attributes.GetSubresource attr in
  let requestGVK := Attributes.GetKind attr in
  let requestGVR := Attributes.GetResource attr in
  let requestSubResource := Attributes.GetSubresource attr in
  let aUserInfo := Attributes.GetUserInfo attr in
  let userInfo :=
    match aUserInfo with
    | Some aUserInfo =>
        UserInfo.mk (UserInfoSource.GetName aUserInfo)
          (UserInfoSource.GetUID aUserInfo)
          (UserInfoSource.GetGroups aUserInfo)
          (Some (copyExtra (UserInfoSource.GetExtra aUserInfo)))
    | None => UserInfo.zero
    end in
  let dryRun := Attributes.IsDryRun attr in
  Some (Request.mk
    ""
    (MetaKind.mk (SchemaKind.Group gvk) (SchemaKind.Version gvk)
       (SchemaKind.Kind gvk))
    (MetaResource.mk (SchemaResource.Group gvr) (SchemaResource.Version gvr)
       (SchemaResource.Resource gvr))
    subresource
    (Some (MetaKind.mk (SchemaKind.Group requestGVK)
             (SchemaKind.Version requestGVK) (SchemaKind.Kind requestGVK)))
    (Some (MetaResource.mk (SchemaResource.Group requestGVR)
             (SchemaResource.Version requestGVR)
             (SchemaResource.Resource requestGVR)))
    requestSubResource
    (Attributes.GetName attr)
    (Attributes.GetNamespace attr)
    (Attributes.GetOperation attr)
    userInfo
    (RawExtension.mk [] NilObject)
    (RawExtension.mk [] NilObject)
    (Some dryRun)
    (RawExtension.mk [] (Attributes.GetOperationOptions attr))).

End CreateAdmissionRequest.

(** ** A concrete scenario

    The scenario of the specification: objects with a [replicas] field, the
    expressions ["object.replicas > 0"] and ["object.bogus.field"], and an
    expression that does not compile. *)

Module Scenario.

(** A typed object: its [replicas] field, and whether the converter can
    represent it. *)
Record Deployment := { replicas : Z; representable : bool }.

#[local] Instance types : Types := {|
  Val := bool;
  Mapping := list (string * Z);
  TypedObject := Deployment;
  AdmissionRequest := string;
  ExpressionAccessor := string;
  GetExpression := λ source, source
|}.

Fixpoint field (name : string) (m : list (string * Z)) : option Z :=
  match m with
  | [] => None
  | (k, v) :: m => if String.eqb k name then Some v else field name m
  end.

(** The program of ["object.replicas > 0"]. *)
Definition replicasPositive : Program := {|
  Eval va :=
    match Activation_ResolveName va "object" with
    | (MapVal (Some m), true) =>
        match field "replicas" m with
        | Some n => (Some (0 <? n)%Z, None)
        | None => (None, Some (errors_New "no such key: replicas"))
        end
    | _ => (None, Some (errors_New "no such key: replicas"))
    end
|}.

(** The program of ["object.bogus.field"]. *)
Definition bogusField : Program := {|
  Eval va := (None, Some (errors_New "no such key: bogus"))
|}.

(** The program of ["object == null && params == null"]. *)
Definition absentInputs : Program := {|
  Eval va :=
    match Activation_ResolveName va "object", Activation_ResolveName va "params" with
    | (Nil, true), (Nil, true) => (Some true, None)
    | _, _ => (Some false, None)
    end
|}.

Definition compile (source : string) (hasParam : bool) : CompilationResult :=
  if String.eqb source "object.replicas > 0" then
    CompilationResult.mk (Some replicasPositive) None source
  else if String.eqb source "object.bogus.field" then
    CompilationResult.mk (Some bogusField) None source
  else if String.eqb source "object == null && params == null" then
    CompilationResult.mk (Some absentInputs) None source
  else
    CompilationResult.mk None (Some (errors_New "Syntax error: mismatched input")) source.

Definition toUnstructured (obj : any) : result (option (list (string * Z))) :=
  match obj with
  | ObjectPtr (Some d) =>
      if representable d then Ok (Some [("replicas", replicas d)])
      else Err (errors_New "unrecognized type: chan")
  | RequestPtr (Some name) => Ok (Some [])
  | MapVal m => Ok m
  | _ => Ok None
  end.

#[local] Instance collaborators : Collaborators := {|
  ToUnstructured := toUnstructured;
  CompileCELExpression := compile
|}.

(** A clock that advances by five nanoseconds per reading. *)
Definition clock (n : nat) : Time := (5 * Z.of_nat n)%Z.

Definition world (f : filter) : World :=
  {| this := f; wallclock := clock; ticks := 0; evalCalls := [] |}.

Definition threeReplicas : runtime_Object :=
  ObjectOf (Some {| replicas := 3; representable := true |}).

Definition unrepresentable : runtime_Object :=
  ObjectOf (Some {| replicas := 3; representable := false |}).

(** What [threeReplicas] and a request convert to. *)
Definition threeReplicasVal : any :=
  MapVal (T := types) (Some [("replicas", 3%Z)]).
Definition requestVal : Unstructured :=
  {| Object := (Some [] : option (Mapping (Types := types))) |}.

Definition create (obj : runtime_Object) : VersionedAttributes :=
  {| VersionedOldObject := NilObject; VersionedObject := obj |}.

End Scenario.

(** A converter that rejects every object, naming the object it rejected,
    and the attributes of a request made by a user with extra entries. *)

Module Rejecting.

#[local] Existing Instance Scenario.types.

Definition toUnstructured (obj : any (T := Scenario.types))
    : result (option (list (string * Z))) :=
  match obj with
  | ObjectPtr (Some d) =>
      Err (errors_New
             (if (Scenario.replicas d =? 1)%Z then "cannot convert object 1"
              else "cannot convert object 2"))
  | _ => Ok None
  end.

#[local] Instance collaborators : Collaborators (T := Scenario.types) := {|
  ToUnstructured := toUnstructured;
  CompileCELExpression := Scenario.compile
|}.

Definition object1 : runtime_Object (T := Scenario.types) :=
  ObjectOf (T := Scenario.types)
    (Some {| Scenario.replicas := 1; Scenario.representable := true |}).
Definition object2 : runtime_Object (T := Scenario.types) :=
  ObjectOf (T := Scenario.types)
    (Some {| Scenario.replicas := 2; Scenario.representable := true |}).

Definition world (f : filter) : World :=
  {| this := f; wallclock := Scenario.clock; ticks := 0; evalCalls := [] |}.

End Rejecting.

Module Admission.

#[local] Existing Instance Scenario.types.

Definition alice : UserInfoSource.t :=
  UserInfoSource.mk "alice" "uid-1" ["dev"; "ops"]
    (<["scopes" := ["read"; "write"]]> (<["team" := ["a"]]> ∅)).

Definition attributes (user : option UserInfoSource.t)
    : Attributes.t (runtime_Object (T := Scenario.types)) :=
  Attributes.mk (SchemaKind.mk "apps" "v1" "Deployment")
    (SchemaResource.mk "apps" "v1" "deployments") "" "web" "default" "CREATE"
    user true NilObject.

End Admission.

Module Observers.

#[local] Existing Instance Scenario.types.

(** The program of ["request == null"]: [true] exactly when [request]
    resolves, found, to the nil mapping. *)
Definition requestIsNil : Program := {|
  Eval va :=
    match Activation_ResolveName va "request" with
    | (MapVal None, true) => (Some true, None)
    | _ => (Some false, None)
    end
|}.

Definition requestFilter : filter :=
  {| compilationResults :=
       [CompilationResult.mk (Some requestIsNil) None "request == null"] |}.

Definition absentFilter : filter :=
  {| compilationResults :=
       [Scenario.compile "object == null && params == null" true] |}.

End Observers.

(** * Properties *)

Section Properties.
Context {T : Types} {C : Collaborators}.
Implicit Types (va : evaluationActivation) (cr : CompilationResult)
  (crs : list CompilationResult) (ev : EvaluationResult)
  (evs pre post : list EvaluationResult) (w : World) (i j k : nat).

(** ** The loop refines its iteration-wise description *)

Lemma alter_middle (f : EvaluationResult → EvaluationResult) pre ev post :
  alter f (length pre) (pre ++ ev :: post) = pre ++ f ev :: post.
Proof.
  replace (length pre) with (length pre + 0) by lia.
  by rewrite alter_app_r.
Qed.

Lemma evaluateSlot_step va cr pre post w :
  ∃ ev w',
    evaluateSlot va (length pre) cr (pre ++ EvaluationResult.zero :: post) w
      = (pre ++ ev :: post, w')
    ∧ slotStep va (length pre) cr w ev w'.
Proof.
  unfold evaluateSlot. rewrite alter_middle.
  destruct (CompilationResult.Error cr) as [cerr|] eqn:Herr.
  { rewrite alter_middle. eexists _, _. split; [done|]. by constructor. }
  destruct (CompilationResult.Program cr) as [program|] eqn:Hprog.
  2: { rewrite alter_middle. eexists _, _. split; [done|]. by constructor. }
  unfold bind, time_Now, time_Since, bind, readClock, callEval, ret. simpl.
  destruct (Eval program (asActivation va)) as [v [err|]] eqn:Heval;
    rewrite !alter_middle; eexists _, _; (split; [done|]).
  - by eapply step_eval_error.
  - by eapply step_value.
Qed.

Lemma rangeLoop_steps va crs : ∀ pre post w,
  ∃ evs w',
    rangeLoop va (length pre) crs
      (pre ++ replicate (length crs) EvaluationResult.zero ++ post) w
      = (pre ++ evs ++ post, w')
    ∧ loopSteps va (length pre) crs w evs w'.
Proof.
  induction crs as [|cr crs IH]; intros pre post w.
  { exists [], w. split; [done|constructor]. }
  cbn [rangeLoop length replicate app]. unfold bind.
  destruct (evaluateSlot_step va cr pre
              (replicate (length crs) EvaluationResult.zero ++ post) w)
    as (ev & w1 & -> & Hstep).
  destruct (IH (pre ++ [ev]) post w1) as (evs & w' & Hloop & Hsteps).
  rewrite length_app Nat.add_1_r -!(assoc_L (++)) in Hloop. simpl in Hloop.
  exists (ev :: evs), w'. split; [done|].
  econstructor; [done|]. by rewrite length_app Nat.add_1_r in Hsteps.
Qed.

Lemma slotStep_frame va i cr w ev w' :
  slotStep va i cr w ev w' →
  this w' = this w ∧ wallclock w' = wallclock w.
Proof. by destruct 1. Qed.

Lemma slotStep_accessor va i cr w ev w' :
  slotStep va i cr w ev w' →
  EvaluationResult.ExpressionAccessor ev
    = Some (CompilationResult.ExpressionAccessor cr).
Proof. by destruct 1. Qed.

(** The trace grows by at most the call of the slot, made on [va]. *)
Lemma slotStep_calls va i cr w ev w' :
  slotStep va i cr w ev w' →
  ∃ new, evalCalls w' = evalCalls w ++ new
    ∧ ∀ c, c ∈ new ↔
        ∃ program, CompilationResult.Error cr = None
          ∧ CompilationResult.Program cr = Some program
          ∧ c = {| call_index := i; call_program := program;
                   call_activation := asActivation va |}.
Proof.
  destruct 1 as [cerr Herr|Herr Hprog|program v err Herr Hprog _|program v Herr Hprog _].
  - exists []. rewrite app_nil_r. split; [done|]. intros c. split.
    + by intros ?%elem_of_nil.
    + intros (? & ? & _). congruence.
  - exists []. rewrite app_nil_r. split; [done|]. intros c. split.
    + by intros ?%elem_of_nil.
    + intros (? & _ & ? & _). congruence.
  - eexists [_]. split; [done|]. intros c. rewrite list_elem_of_singleton. split.
    + intros ->. by exists program.
    + intros (p' & _ & Hp' & ->). congruence.
  - eexists [_]. split; [done|]. intros c. rewrite list_elem_of_singleton. split.
    + intros ->. by exists program.
    + intros (p' & _ & Hp' & ->). congruence.
Qed.

Lemma loopSteps_length va i crs w evs w' :
  loopSteps va i crs w evs w' → length evs = length crs.
Proof. induction 1; simpl; congruence. Qed.

Lemma loopSteps_frame va i crs w evs w' :
  loopSteps va i crs w evs w' →
  this w' = this w ∧ wallclock w' = wallclock w.
Proof.
  induction 1 as [|i cr crs w ev w1 evs w' Hstep _ [-> ->]]; [done|].
  by apply slotStep_frame in Hstep.
Qed.

(** Slot [k] of the output was written by the iteration for index [i + k]. *)
Lemma loopSteps_lookup va i crs w evs w' k cr :
  loopSteps va i crs w evs w' →
  crs !! k = Some cr →
  ∃ ev wk wk', evs !! k = Some ev ∧ slotStep va (i + k) cr wk ev wk'.
Proof.
  intros Hloop. revert k.
  induction Hloop as [|i cr0 crs w ev w1 evs w' Hstep _ IH]; intros k Hk; [done|].
  destruct k as [|k]; simplify_eq/=.
  - exists ev, w, w1. by rewrite Nat.add_0_r.
  - destruct (IH k Hk) as (evk & wk & wk' & ? & ?).
    exists evk, wk, wk'. by rewrite -Nat.add_succ_comm.
Qed.

(** The calls made by the loop: one per result that has a program and no
    compile error, on the activation [va], tagged with the slot's index. *)
Lemma loopSteps_calls va i crs w evs w' :
  loopSteps va i crs w evs w' →
  ∃ new, evalCalls w' = evalCalls w ++ new
    ∧ ∀ c, c ∈ new ↔
        ∃ k cr program, crs !! k = Some cr
          ∧ CompilationResult.Error cr = None
          ∧ CompilationResult.Program cr = Some program
          ∧ c = {| call_index := i + k; call_program := program;
                   call_activation := asActivation va |}.
Proof.
  induction 1 as [i w|i cr crs w ev w1 evs w' Hstep _ (new2 & -> & Hnew2)].
  { exists []. rewrite app_nil_r. split; [done|]. intros c. split.
    - by intros ?%elem_of_nil.
    - by intros (k & ? & ? & ? & _). }
  destruct (slotStep_calls _ _ _ _ _ _ Hstep) as (new1 & -> & Hnew1).
  exists (new1 ++ new2). rewrite (assoc_L (++)). split; [done|].
  intros c. rewrite elem_of_app Hnew1 Hnew2. split.
  - intros [(p & ? & ? & ->)|(k & crk & p & ? & ? & ? & ->)].
    + exists 0, cr, p. by rewrite Nat.add_0_r.
    + exists (S k), crk, p. by rewrite -Nat.add_succ_comm.
  - intros ([|k] & crk & p & Hk & ? & ? & ->); simplify_eq/=.
    + left. exists p. by rewrite Nat.add_0_r.
    + right. exists k, crk, p. by rewrite -Nat.add_succ_comm.
Qed.

(** Two runs of the loop over the same results agree on everything but the
    measured durations. *)
Lemma loopSteps_agree va i crs w1 evs1 w1' w2 evs2 w2' :
  loopSteps va i crs w1 evs1 w1' →
  loopSteps va i crs w2 evs2 w2' →
  Forall2 (λ e1 e2,
      EvaluationResult.EvalResult e1 = EvaluationResult.EvalResult e2
      ∧ EvaluationResult.Error e1 = EvaluationResult.Error e2
      ∧ EvaluationResult.ExpressionAccessor e1
          = EvaluationResult.ExpressionAccessor e2) evs1 evs2.
Proof.
  intros Hloop1. revert w2 evs2 w2'.
  induction Hloop1 as [|i cr crs w1 ev1 w1a evs1 w1' Hstep1 _ IH];
    intros w2 evs2 w2' Hloop2; inversion Hloop2 as [|? ? ? ? ev2 w2a evs2' ? Hstep2 Hrest];
    simplify_eq; constructor; [|by eapply IH].
  destruct Hstep1, Hstep2; simpl; repeat split; congruence.
Qed.

(** A slot whose result has a program and no compile error reports what the
    program returned on [va]: its value, or its error wrapped with the source
    text and no value. *)
Lemma slotStep_program va i cr w ev w' program :
  slotStep va i cr w ev w' →
  CompilationResult.Error cr = None →
  CompilationResult.Program cr = Some program →
  match Eval program (asActivation va) with
  | (_, Some err) =>
      EvaluationResult.Error ev
        = Some (errors_New
            ("expression '"
             +:+ GetExpression (CompilationResult.ExpressionAccessor cr)
             +:+ "' resulted in error: " +:+ error_Error err))
      ∧ EvaluationResult.EvalResult ev = None
  | (v, None) =>
      EvaluationResult.EvalResult ev = v ∧ EvaluationResult.Error ev = None
  end.
Proof.
  destruct 1 as [cerr Herr|Herr Hprog|p v err Herr Hprog Heval|p v Herr Hprog Heval];
    intros ? ?; simplify_eq; by rewrite Heval.
Qed.

(** A slot whose result was never run: the message [msg] and nothing else. *)
Lemma slotStep_not_run va i cr w ev w' :
  slotStep va i cr w ev w' →
  CompilationResult.Error cr ≠ None ∨ CompilationResult.Program cr = None →
  EvaluationResult.EvalResult ev = None
  ∧ EvaluationResult.Elapsed ev = 0%Z
  ∧ EvaluationResult.Error ev
      = Some (errors_New
          match CompilationResult.Error cr with
          | Some cerr => "compilation error: " +:+ error_Error cerr
          | None => "unexpected internal error compiling expression"
          end).
Proof.
  destruct 1 as [cerr Herr|Herr Hprog|p v err Herr Hprog Heval|p v Herr Hprog Heval];
    intros [?|?]; simplify_eq; by rewrite Herr.
Qed.

(** ** [ForInput] as a whole *)

Lemma ForInput_converted versionedAttr versionedParams request
    oldObjectVal objectVal paramsVal requestVal w :
  objectToResolveVal (VersionedOldObject versionedAttr) = Ok oldObjectVal →
  objectToResolveVal (VersionedObject versionedAttr) = Ok objectVal →
  objectToResolveVal versionedParams = Ok paramsVal →
  convertObjectToUnstructured (requestAsAny request) = Ok requestVal →
  ∃ evaluations w',
    ForInput versionedAttr versionedParams request w = ((evaluations, None), w')
    ∧ loopSteps {| object := objectVal; oldObject := oldObjectVal;
                   params := paramsVal; request := MapVal (Object requestVal) |}
        0 (compilationResults (this w)) w evaluations w'.
Proof.
  intros Hold Hnew Hparams Hreq.
  unfold ForInput, bind, getThis, ret. rewrite Hold Hnew Hparams Hreq.
  match goal with |- context [rangeLoop ?va _ ?crs _ _] =>
    destruct (rangeLoop_steps va crs [] [] w) as (evs & w' & Hloop & Hsteps)
  end.
  rewrite /= !app_nil_r in Hloop. rewrite Hloop. by exists evs, w'.
Qed.

(** Every call either stops at the first conversion that fails, leaving the
    world as it was, or converts all four inputs and runs the loop. *)
Lemma ForInput_outcome versionedAttr versionedParams request :
  (∃ err,
     (∀ w, ForInput versionedAttr versionedParams request w = (([], Some err), w))
     ∧ (objectToResolveVal (VersionedOldObject versionedAttr) = Err err
        ∨ objectToResolveVal (VersionedObject versionedAttr) = Err err
        ∨ objectToResolveVal versionedParams = Err err
        ∨ convertObjectToUnstructured (requestAsAny request) = Err err))
  ∨ (∃ oldObjectVal objectVal paramsVal requestVal,
       objectToResolveVal (VersionedOldObject versionedAttr) = Ok oldObjectVal
       ∧ objectToResolveVal (VersionedObject versionedAttr) = Ok objectVal
       ∧ objectToResolveVal versionedParams = Ok paramsVal
       ∧ convertObjectToUnstructured (requestAsAny request) = Ok requestVal
       ∧ ∀ w, ∃ evaluations w',
           ForInput versionedAttr versionedParams request w
             = ((evaluations, None), w')
           ∧ loopSteps {| object := objectVal; oldObject := oldObjectVal;
                          params := paramsVal;
                          request := MapVal (Object requestVal) |}
               0 (compilationResults (this w)) w evaluations w').
Proof.
  destruct (objectToResolveVal (VersionedOldObject versionedAttr))
    as [oldObjectVal|err] eqn:Hold;
    [|left; exists err; rewrite /ForInput /bind /getThis /ret Hold; by auto].
  destruct (objectToResolveVal (VersionedObject versionedAttr))
    as [objectVal|err] eqn:Hnew;
    [|left; exists err; rewrite /ForInput /bind /getThis /ret Hold Hnew; by auto].
  destruct (objectToResolveVal versionedParams) as [paramsVal|err] eqn:Hparams;
    [|left; exists err; rewrite /ForInput /bind /getThis /ret Hold Hnew Hparams;
      by auto].
  destruct (convertObjectToUnstructured (requestAsAny request))
    as [requestVal|err] eqn:Hreq;
    [|left; exists err;
      rewrite /ForInput /bind /getThis /ret Hold Hnew Hparams Hreq; by auto 6].
  right. exists oldObjectVal, objectVal, paramsVal, requestVal.
  repeat (split; [done|]). intros w. by apply ForInput_converted.
Qed.

(** An absent object, the nil interface or a nil pointer, is never handed to
    the converter. *)
Lemma objectToResolveVal_absent r :
  r = NilObject ∨ r = ObjectOf None → objectToResolveVal r = Ok Nil.
Proof. by intros [-> | ->]. Qed.

Lemma CompilationErrors_foldl crs (acc : list error) :
  foldl (λ compilationErrors result,
           match CompilationResult.Error result with
           | Some err => compilationErrors ++ [err]
           | None => compilationErrors
           end) acc crs
  = acc ++ omap CompilationResult.Error crs.
Proof.
  revert acc. induction crs as [|cr crs IH]; intros acc; simpl.
  - by rewrite app_nil_r.
  - rewrite IH. destruct (CompilationResult.Error cr); [|done].
    by rewrite -(assoc_L (++)).
Qed.

(** ** The properties of the specification *)

(** C4. When projecting the old object, the new object, the params object or
    the request fails, [ForInput] returns a top-level error and the nil list;
    the world is left as it was, so no program was run and the clock was not
    read. *)
Theorem ForInput_conversion_failure_aborts
    versionedAttr versionedParams request w :
  (∃ err, objectToResolveVal (VersionedOldObject versionedAttr) = Err err)
  ∨ (∃ err, objectToResolveVal (VersionedObject versionedAttr) = Err err)
  ∨ (∃ err, objectToResolveVal versionedParams = Err err)
  ∨ (∃ err, convertObjectToUnstructured (requestAsAny request) = Err err) →
  ∃ err, ForInput versionedAttr versionedParams request w = (([], Some err), w).
Proof.
  intros Hfail.
  destruct (ForInput_outcome versionedAttr versionedParams request)
    as [(err & Hrun & _)|(? & ? & ? & ? & Hold & Hnew & Hparams & Hreq & _)].
  - by exists err.
  - destruct Hfail as [[? ?]|[[? ?]|[[? ?]|[? ?]]]]; congruence.
Qed.

(** C5. Compiling the empty list returns the nil filter, whatever [hasParam]
    is, and a filter that is returned never holds zero results. *)
Theorem Compile_empty_is_nil hasParam :
  Compile [] hasParam = None
  ∧ ∀ expressionAccessors f,
      Compile expressionAccessors hasParam = Some f →
      compilationResults f ≠ [].
Proof.
  split; [done|]. intros [|e es] f; [done|].
  unfold Compile, NewFilter. simpl. by intros [= <-].
Qed.

(** C6. [ResolveName] finds exactly [object], [oldObject], [params] and
    [request], each with the value stored in its slot; every other name is not
    found; and the activation has no parent. *)
Theorem ResolveName_reserved_names (a : evaluationActivation) (name : string) :
  ResolveName a "object" = (object a, true)
  ∧ ResolveName a "oldObject" = (oldObject a, true)
  ∧ ResolveName a "params" = (params a, true)
  ∧ ResolveName a "request" = (request a, true)
  ∧ ((ResolveName a name).2 = true
     ↔ name ∈ ["object"; "oldObject"; "params"; "request"])
  ∧ (name ∉ ["object"; "oldObject"; "params"; "request"] →
     ResolveName a name = (Nil, false))
  ∧ Parent a = None
  ∧ Activation_Parent (asActivation a) = None.
Proof.
  repeat (split; [done|]).
  assert (Hcases : name ∈ ["object"; "oldObject"; "params"; "request"]
                   ∨ ResolveName a name = (Nil, false)).
  { unfold ResolveName, ObjectVarName, OldObjectVarName, ParamsVarName,
      RequestVarName.
    repeat match goal with
           | |- context [String.eqb name ?reserved] =>
               destruct (String.eqb_spec name reserved) as [->|_];
               [left; rewrite !elem_of_cons; by auto 10|]
           end.
    by right. }
  split; [split|split; [|done]].
  - destruct Hcases as [? | ->]; done.
  - rewrite !elem_of_cons. intros [-> | [-> | [-> | [-> | []%elem_of_nil]]]]; done.
  - by destruct Hcases.
Qed.

(** C7. An absent new object, old object or params object is projected to nil
    without error. A top-level error of [ForInput] always comes from an object
    that is present or from the request; a call without one runs the program
    of every result that has one and no compile error and reports in its slot
    what that program returned on the activation of the call; and every
    program run by the call finds the variable of an absent object bound to
    nil. *)
Theorem ForInput_absent_objects_resolve_nil
    versionedAttr versionedParams request w :
  let absent (r : runtime_Object) := r = NilObject ∨ r = ObjectOf None in
  (∀ r, absent r → objectToResolveVal r = Ok Nil)
  ∧ ∃ evaluations err w' new,
      ForInput versionedAttr versionedParams request w = ((evaluations, err), w')
      ∧ evalCalls w' = evalCalls w ++ new
      ∧ (∀ e, err = Some e →
           (¬ absent (VersionedOldObject versionedAttr)
            ∧ objectToResolveVal (VersionedOldObject versionedAttr) = Err e)
           ∨ (¬ absent (VersionedObject versionedAttr)
              ∧ objectToResolveVal (VersionedObject versionedAttr) = Err e)
           ∨ (¬ absent versionedParams
              ∧ objectToResolveVal versionedParams = Err e)
           ∨ convertObjectToUnstructured (requestAsAny request) = Err e)
      ∧ (err = None →
         ∀ k cr program,
           compilationResults (this w) !! k = Some cr →
           CompilationResult.Error cr = None →
           CompilationResult.Program cr = Some program →
           ∃ c ev,
             c ∈ new
             ∧ call_index c = k
             ∧ call_program c = program
             ∧ evaluations !! k = Some ev
             ∧ match Eval program (call_activation c) with
               | (_, Some e) =>
                   EvaluationResult.Error ev
                     = Some (errors_New
                         ("expression '"
                          +:+ GetExpression (CompilationResult.ExpressionAccessor cr)
                          +:+ "' resulted in error: " +:+ error_Error e))
                   ∧ EvaluationResult.EvalResult ev = None
               | (v, None) =>
                   EvaluationResult.EvalResult ev = v
                   ∧ EvaluationResult.Error ev = None
               end)
      ∧ (∀ c, c ∈ new →
           (absent (VersionedObject versionedAttr) →
            Activation_ResolveName (call_activation c) "object" = (Nil, true))
           ∧ (absent (VersionedOldObject versionedAttr) →
              Activation_ResolveName (call_activation c) "oldObject" = (Nil, true))
           ∧ (absent versionedParams →
              Activation_ResolveName (call_activation c) "params" = (Nil, true))).
Proof.
  intros absent. split; [apply objectToResolveVal_absent|].
  assert (Hpresent : ∀ r e, objectToResolveVal r = Err e → ¬ absent r).
  { intros r e He Hr. apply objectToResolveVal_absent in Hr. congruence. }
  destruct (ForInput_outcome versionedAttr versionedParams request)
    as [(err & Hrun & Herr)
       |(oldObjectVal & objectVal & paramsVal & requestVal
         & Hold & Hnew & Hparams & Hreq & Hrun)].
  - exists [], (Some err), w, []. rewrite app_nil_r.
    split; [done|]. split; [done|]. split; [|split; [done|]].
    + intros e [= <-]. destruct Herr as [?|[?|[?|?]]]; eauto 6.
    + by intros c ?%elem_of_nil.
  - destruct (Hrun w) as (evaluations & w' & -> & Hsteps).
    destruct (loopSteps_calls _ _ _ _ _ _ Hsteps) as (new & Hnewcalls & Hin).
    exists evaluations, None, w', new. do 2 (split; [done|]). split; [done|].
    split.
    + intros _ k cr program Hk Herr Hprog.
      destruct (loopSteps_lookup _ _ _ _ _ _ _ _ Hsteps Hk)
        as (ev & wk & wk' & Hev & Hstep).
      eexists _, ev. split; [apply Hin; by exists k, cr, program|].
      do 3 (split; [done|]).
      exact (slotStep_program _ _ _ _ _ _ _ Hstep Herr Hprog).
    + intros c (k & cr & program & _ & _ & _ & ->)%Hin. simpl.
      repeat split; intros Habsent%objectToResolveVal_absent;
        unfold ResolveName; simpl; congruence.
Qed.

(** C8. [CompilationErrors] returns the compile errors recorded in the
    filter, in stored order, skipping the results without one, and leaves the
    filter and the rest of the world as they were. *)
Theorem CompilationErrors_recorded_in_order w :
  CompilationErrors w
  = (omap CompilationResult.Error (compilationResults (this w)), w).
Proof.
  unfold CompilationErrors, bind, getThis, ret.
  by rewrite CompilationErrors_foldl.
Qed.

(** C9. Two calls of [ForInput] on the same filter with the same inputs,
    whatever the clock and the trace at the time of each call, return the same
    top-level error and, slot by slot, the same accessor, evaluated value and
    error; only the measured durations depend on the call. Neither call
    changes the filter. *)
Theorem ForInput_idempotent versionedAttr versionedParams request
    (f : filter) (clock1 clock2 : nat → Time) (ticks1 ticks2 : nat)
    (calls1 calls2 : list EvalCall) :
  let w1 := {| this := f; wallclock := clock1; ticks := ticks1;
               evalCalls := calls1 |} in
  let w2 := {| this := f; wallclock := clock2; ticks := ticks2;
               evalCalls := calls2 |} in
  ∃ evaluations1 evaluations2 err w1' w2',
    ForInput versionedAttr versionedParams request w1
      = ((evaluations1, err), w1')
    ∧ ForInput versionedAttr versionedParams request w2
        = ((evaluations2, err), w2')
    ∧ Forall2 (λ e1 e2,
          EvaluationResult.EvalResult e1 = EvaluationResult.EvalResult e2
          ∧ EvaluationResult.Error e1 = EvaluationResult.Error e2
          ∧ EvaluationResult.ExpressionAccessor e1
              = EvaluationResult.ExpressionAccessor e2)
        evaluations1 evaluations2
    ∧ this w1' = f
    ∧ this w2' = f.
Proof.
  intros w1 w2.
  destruct (ForInput_outcome versionedAttr versionedParams request)
    as [(err & Hrun & _)|(? & ? & ? & ? & _ & _ & _ & _ & Hrun)].
  - exists [], [], (Some err), w1, w2. rewrite !Hrun. by repeat split.
  - destruct (Hrun w1) as (evaluations1 & w1' & -> & Hsteps1).
    destruct (Hrun w2) as (evaluations2 & w2' & -> & Hsteps2).
    exists evaluations1, evaluations2, None, w1', w2'.
    do 2 (split; [done|]). split; [by eapply loopSteps_agree|].
    apply loopSteps_frame in Hsteps1 as [-> _].
    by apply loopSteps_frame in Hsteps2 as [-> _].
Qed.

(** C10. A nil request pointer is converted to the nil mapping without
    error. With such a request a top-level error of [ForInput] comes from one
    of the three objects; a call without one runs the program of every result
    that has one and no compile error and reports in its slot what that
    program returned on the activation of the call; and every program run by
    the call finds [request] bound to the nil mapping. *)
Theorem ForInput_nil_request_resolves_empty versionedAttr versionedParams w :
  convertObjectToUnstructured (requestAsAny None) = Ok {| Object := None |}
  ∧ ∃ evaluations err w' new,
      ForInput versionedAttr versionedParams None w = ((evaluations, err), w')
      ∧ evalCalls w' = evalCalls w ++ new
      ∧ (∀ e, err = Some e →
           objectToResolveVal (VersionedOldObject versionedAttr) = Err e
           ∨ objectToResolveVal (VersionedObject versionedAttr) = Err e
           ∨ objectToResolveVal versionedParams = Err e)
      ∧ (err = None →
         ∀ k cr program,
           compilationResults (this w) !! k = Some cr →
           CompilationResult.Error cr = None →
           CompilationResult.Program cr = Some program →
           ∃ c ev,
             c ∈ new
             ∧ call_index c = k
             ∧ call_program c = program
             ∧ evaluations !! k = Some ev
             ∧ match Eval program (call_activation c) with
               | (_, Some e) =>
                   EvaluationResult.Error ev
                     = Some (errors_New
                         ("expression '"
                          +:+ GetExpression (CompilationResult.ExpressionAccessor cr)
                          +:+ "' resulted in error: " +:+ error_Error e))
                   ∧ EvaluationResult.EvalResult ev = None
               | (v, None) =>
                   EvaluationResult.EvalResult ev = v
                   ∧ EvaluationResult.Error ev = None
               end)
      ∧ (∀ c, c ∈ new →
           Activation_ResolveName (call_activation c) "request"
             = (MapVal None, true)).
Proof.
  split; [done|].
  destruct (ForInput_outcome versionedAttr versionedParams None)
    as [(err & Hrun & Herr)
       |(oldObjectVal & objectVal & paramsVal & requestVal
         & _ & _ & _ & Hreq & Hrun)].
  - exists [], (Some err), w, []. rewrite app_nil_r.
    split; [done|]. split; [done|]. split; [|split; [done|]].
    + intros e [= <-]. destruct Herr as [?|[?|[?|?]]]; by auto.
    + by intros c ?%elem_of_nil.
  - destruct (Hrun w) as (evaluations & w' & -> & Hsteps).
    destruct (loopSteps_calls _ _ _ _ _ _ Hsteps) as (new & Hnewcalls & Hin).
    exists evaluations, None, w', new. do 2 (split; [done|]). split; [done|].
    split.
    + intros _ k cr program Hk Herr Hprog.
      destruct (loopSteps_lookup _ _ _ _ _ _ _ _ Hsteps Hk)
        as (ev & wk & wk' & Hev & Hstep).
      eexists _, ev. split; [apply Hin; by exists k, cr, program|].
      do 3 (split; [done|]).
      exact (slotStep_program _ _ _ _ _ _ _ Hstep Herr Hprog).
    + intros c (k & cr & program & _ & _ & _ & ->)%Hin.
      by injection Hreq as <-.
Qed.

(** ** Calls whose inputs convert *)

Section Converted.
Context (versionedAttr : VersionedAttributes) (versionedParams : runtime_Object)
  (admissionRequest : option AdmissionRequest)
  (oldObjectVal objectVal paramsVal : any) (requestVal : Unstructured).
Hypothesis oldObject_converts :
  objectToResolveVal (VersionedOldObject versionedAttr) = Ok oldObjectVal.
Hypothesis object_converts :
  objectToResolveVal (VersionedObject versionedAttr) = Ok objectVal.
Hypothesis params_convert :
  objectToResolveVal versionedParams = Ok paramsVal.
Hypothesis request_converts :
  convertObjectToUnstructured (requestAsAny admissionRequest) = Ok requestVal.

(** The activation [ForInput] builds from the converted inputs. *)
Let va : evaluationActivation :=
  {| object := objectVal; oldObject := oldObjectVal; params := paramsVal;
     request := MapVal (Object requestVal) |}.

Lemma ForInput_runs w :
  ∃ evaluations w' new,
    ForInput versionedAttr versionedParams admissionRequest w = ((evaluations, None), w')
    ∧ loopSteps va 0 (compilationResults (this w)) w evaluations w'
    ∧ evalCalls w' = evalCalls w ++ new
    ∧ ∀ c, c ∈ new ↔
        ∃ k cr program, compilationResults (this w) !! k = Some cr
          ∧ CompilationResult.Error cr = None
          ∧ CompilationResult.Program cr = Some program
          ∧ c = {| call_index := k; call_program := program;
                   call_activation := asActivation va |}.
Proof using All.
  destruct (ForInput_converted versionedAttr versionedParams admissionRequest _ _ _ _ w
              oldObject_converts object_converts params_convert
              request_converts) as (evaluations & w' & Hrun & Hsteps).
  destruct (loopSteps_calls _ _ _ _ _ _ Hsteps) as (new & Hnewcalls & Hin).
  by exists evaluations, w', new.
Qed.

(** C2. When the inputs convert and the program of expression [i] signals an
    error, slot [i] carries that error wrapped with the source text of
    expression [i] and no value; every later expression that has a program is
    still run, and its slot reports its own outcome; the call itself returns
    no top-level error. *)
Theorem ForInput_evaluation_error_isolated w i cr program v err :
  compilationResults (this w) !! i = Some cr →
  CompilationResult.Error cr = None →
  CompilationResult.Program cr = Some program →
  Eval program (asActivation va) = (v, Some err) →
  ∃ evaluations w' new,
    ForInput versionedAttr versionedParams admissionRequest w
      = ((evaluations, None), w')
    ∧ evalCalls w' = evalCalls w ++ new
    ∧ (∃ ev, evaluations !! i = Some ev
         ∧ EvaluationResult.Error ev
             = Some (errors_New
                 ("expression '"
                  +:+ GetExpression (CompilationResult.ExpressionAccessor cr)
                  +:+ "' resulted in error: " +:+ error_Error err))
         ∧ EvaluationResult.EvalResult ev = None)
    ∧ ∀ j crj programj,
        i < j →
        compilationResults (this w) !! j = Some crj →
        CompilationResult.Error crj = None →
        CompilationResult.Program crj = Some programj →
        {| call_index := j; call_program := programj;
           call_activation := asActivation va |} ∈ new
        ∧ ∃ evj, evaluations !! j = Some evj
            ∧ match Eval programj (asActivation va) with
              | (_, Some errj) =>
                  EvaluationResult.Error evj
                    = Some (errors_New
                        ("expression '"
                         +:+ GetExpression (CompilationResult.ExpressionAccessor crj)
                         +:+ "' resulted in error: " +:+ error_Error errj))
                  ∧ EvaluationResult.EvalResult evj = None
              | (vj, None) =>
                  EvaluationResult.EvalResult evj = vj
                  ∧ EvaluationResult.Error evj = None
              end.
Proof using All.
  intros Hi Herr Hprog Heval.
  destruct (ForInput_runs w) as (evaluations & w' & new & Hrun & Hsteps & Hnew & Hin).
  exists evaluations, w', new. do 2 (split; [done|]). split.
  - destruct (loopSteps_lookup _ _ _ _ _ _ _ _ Hsteps Hi)
      as (ev & wk & wk' & Hev & Hstep).
    exists ev. split; [done|].
    pose proof (slotStep_program _ _ _ _ _ _ _ Hstep Herr Hprog) as Hslot.
    by rewrite Heval in Hslot.
  - intros j crj programj _ Hj Herrj Hprogj. split.
    + apply Hin. by exists j, crj, programj.
    + destruct (loopSteps_lookup _ _ _ _ _ _ _ _ Hsteps Hj)
        as (evj & wk & wk' & Hevj & Hstep).
      exists evj. split; [done|]. by eapply slotStep_program.
Qed.

(** C3, as amended. In a call whose inputs convert: a result that carries a
    compile error yields the wrapped compile error, no value, a zero duration
    and no call of a program for its slot; a result with neither error nor
    program yields the internal-error message in the same way, and every slot
    of the list is still filled; and for [A; B] with [A] failed to compile and
    [B] compiled to a program that returns a value on these inputs, the call
    yields the compile error for [A] and the value without error for [B]. *)
Theorem ForInput_compile_failures_isolated w :
  ∃ evaluations w' new,
    ForInput versionedAttr versionedParams admissionRequest w
      = ((evaluations, None), w')
    ∧ evalCalls w' = evalCalls w ++ new
    ∧ (∀ i cr cerr,
         compilationResults (this w) !! i = Some cr →
         CompilationResult.Error cr = Some cerr →
         (∃ ev, evaluations !! i = Some ev
            ∧ EvaluationResult.Error ev
                = Some (errors_New ("compilation error: " +:+ error_Error cerr))
            ∧ EvaluationResult.EvalResult ev = None
            ∧ EvaluationResult.Elapsed ev = 0%Z)
         ∧ ∀ c, c ∈ new → call_index c ≠ i)
    ∧ (∀ i cr,
         compilationResults (this w) !! i = Some cr →
         CompilationResult.Error cr = None →
         CompilationResult.Program cr = None →
         (∃ ev, evaluations !! i = Some ev
            ∧ EvaluationResult.Error ev
                = Some (errors_New "unexpected internal error compiling expression")
            ∧ EvaluationResult.EvalResult ev = None
            ∧ EvaluationResult.Elapsed ev = 0%Z)
         ∧ (∀ c, c ∈ new → call_index c ≠ i)
         ∧ ∀ j crj,
             compilationResults (this w) !! j = Some crj →
             ∃ evj, evaluations !! j = Some evj
               ∧ EvaluationResult.ExpressionAccessor evj
                   = Some (CompilationResult.ExpressionAccessor crj))
    ∧ (∀ A B cerr program v,
         compilationResults (this w) = [A; B] →
         CompilationResult.Error A = Some cerr →
         CompilationResult.Error B = None →
         CompilationResult.Program B = Some program →
         Eval program (asActivation va) = (Some v, None) →
         ∃ evA evB, evaluations = [evA; evB]
           ∧ EvaluationResult.Error evA
               = Some (errors_New ("compilation error: " +:+ error_Error cerr))
           ∧ EvaluationResult.EvalResult evB = Some v
           ∧ EvaluationResult.Error evB = None).
Proof using All.
  destruct (ForInput_runs w) as (evaluations & w' & new & Hrun & Hsteps & Hnew & Hin).
  exists evaluations, w', new. do 2 (split; [done|]).
  assert (Hskipped : ∀ i cr,
    compilationResults (this w) !! i = Some cr →
    CompilationResult.Error cr ≠ None ∨ CompilationResult.Program cr = None →
    (∃ ev, evaluations !! i = Some ev
       ∧ EvaluationResult.EvalResult ev = None
       ∧ EvaluationResult.Elapsed ev = 0%Z
       ∧ EvaluationResult.Error ev
           = Some (errors_New
               match CompilationResult.Error cr with
               | Some cerr => "compilation error: " +:+ error_Error cerr
               | None => "unexpected internal error compiling expression"
               end))
    ∧ ∀ c, c ∈ new → call_index c ≠ i).
  { intros i cr Hi Hskip. split.
    - destruct (loopSteps_lookup _ _ _ _ _ _ _ _ Hsteps Hi)
        as (ev & wk & wk' & Hev & Hstep).
      exists ev. split; [done|]. by eapply slotStep_not_run.
    - intros c (k & crk & p & Hk & Herrk & Hprogk & ->)%Hin. simpl. intros ->.
      destruct Hskip; congruence. }
  split; [|split].
  - intros i cr cerr Hi Herr.
    destruct (Hskipped i cr Hi) as [(ev & Hev & ? & ? & Hmsg) Hcalls];
      [left; congruence|].
    rewrite Herr in Hmsg. split; [by exists ev|done].
  - intros i cr Hi Herr Hprog.
    destruct (Hskipped i cr Hi) as [(ev & Hev & ? & ? & Hmsg) Hcalls];
      [by right|].
    rewrite Herr in Hmsg. split; [by exists ev|]. split; [done|].
    intros j crj Hj.
    destruct (loopSteps_lookup _ _ _ _ _ _ _ _ Hsteps Hj)
      as (evj & wk & wk' & Hevj & Hstep).
    exists evj. split; [done|]. by eapply slotStep_accessor.
  - intros A B cerr program v Hcrs HerrA HerrB HprogB Heval.
    rewrite Hcrs in Hsteps.
    inversion Hsteps as [|? ? ? ? evA wA evs ? HstepA Hrest]; subst.
    inversion Hrest as [|? ? ? ? evB wB evs' ? HstepB Hdone]; subst.
    inversion Hdone; subst.
    exists evA, evB. split; [done|].
    destruct (slotStep_not_run _ _ _ _ _ _ HstepA) as (_ & _ & HmsgA);
      [left; congruence|].
    rewrite HerrA in HmsgA. split; [done|].
    pose proof (slotStep_program _ _ _ _ _ _ _ HstepB HerrB HprogB) as HslotB.
    by rewrite Heval in HslotB.
Qed.

(** C1, as amended. For a compiler that hands back the accessor it was given
    and a non-empty list, [Compile] returns a filter that holds the outcome of
    compiling expression [i] at index [i], and every [ForInput] call whose
    inputs convert returns, without top-level error, a list of the same length
    whose slot [i] carries the accessor of expression [i], whatever became of
    the expression. *)
Theorem Compile_ForInput_positional
    (expressionAccessors : list ExpressionAccessor) (hasParam : bool) :
  (∀ e b, CompilationResult.ExpressionAccessor (CompileCELExpression e b) = e) →
  expressionAccessors ≠ [] →
  ∃ f, Compile expressionAccessors hasParam = Some f
    ∧ length (compilationResults f) = length expressionAccessors
    ∧ (∀ i e, expressionAccessors !! i = Some e →
         compilationResults f !! i = Some (CompileCELExpression e hasParam))
    ∧ ∀ w, this w = f →
        ∃ evaluations w',
          ForInput versionedAttr versionedParams admissionRequest w
            = ((evaluations, None), w')
          ∧ length evaluations = length expressionAccessors
          ∧ ∀ i e, expressionAccessors !! i = Some e →
              ∃ ev, evaluations !! i = Some ev
                ∧ EvaluationResult.ExpressionAccessor ev = Some e.
Proof using All.
  intros Haccessor Hnonempty.
  unfold Compile, NewFilter.
  destruct expressionAccessors as [|e0 es] eqn:Hexprs; [done|].
  rewrite -Hexprs. replace (length expressionAccessors =? 0) with false
    by by rewrite Hexprs.
  eexists. split; [done|]. simpl.
  split; [by rewrite length_fmap|].
  split; [by intros i e Hi; rewrite list_lookup_fmap Hi|].
  intros w Hthis.
  destruct (ForInput_runs w) as (evaluations & w' & new & Hrun & Hsteps & _).
  rewrite Hthis /= in Hsteps.
  exists evaluations, w'. split; [done|].
  split; [by rewrite (loopSteps_length _ _ _ _ _ _ Hsteps) length_fmap|].
  intros i e Hi.
  destruct (loopSteps_lookup _ _ _ _ _ _ i (CompileCELExpression e hasParam) Hsteps)
    as (ev & wk & wk' & Hev & Hstep); [by rewrite list_lookup_fmap Hi|].
  exists ev. split; [done|].
  by rewrite (slotStep_accessor _ _ _ _ _ _ Hstep) Haccessor.
Qed.

End Converted.

(** ** Further properties of the loop *)

Lemma slotStep_trace va i cr w ev w' :
  slotStep va i cr w ev w' →
  evalCalls w' = evalCalls w ++ expectedCalls va i [cr]
  ∧ ticks w' = ticks w + 2 * length (expectedCalls va i [cr]).
Proof.
  destruct 1 as [cerr Herr|Herr Hprog|p v err Herr Hprog _|p v Herr Hprog _];
    rewrite /= /runnable Herr ?Hprog /= ?app_nil_r; split; (done || lia).
Qed.

Lemma expectedCalls_cons va i cr crs :
  expectedCalls va i (cr :: crs)
  = expectedCalls va i [cr] ++ expectedCalls va (S i) crs.
Proof. simpl. by rewrite app_nil_r. Qed.

(** The loop runs the programs of the runnable results, in stored order, and
    reads the clock twice for each. *)
Lemma loopSteps_trace va i crs w evs w' :
  loopSteps va i crs w evs w' →
  evalCalls w' = evalCalls w ++ expectedCalls va i crs
  ∧ ticks w' = ticks w + 2 * length (expectedCalls va i crs).
Proof.
  induction 1 as [i w|i cr crs w ev w1 evs w' Hstep _ [-> ->]].
  { by rewrite /= app_nil_r Nat.add_0_r. }
  destruct (slotStep_trace _ _ _ _ _ _ Hstep) as [-> ->].
  rewrite (expectedCalls_cons va i cr crs) length_app -(assoc_L (++)).
  split; [done|lia].
Qed.

Lemma expectedCalls_activation va i crs :
  Forall (λ c, call_activation c = asActivation va) (expectedCalls va i crs).
Proof.
  revert i. induction crs as [|cr crs IH]; intros i; simpl; [constructor|].
  apply Forall_app. split; [|apply IH].
  destruct (runnable cr); repeat constructor.
Qed.

(** Slot by slot, the output of the loop was written by an iteration for the
    result at the same position, under the clock of the call. *)
Lemma loopSteps_slots va i crs w evs w' :
  loopSteps va i crs w evs w' →
  Forall2 (λ cr ev, ∃ k wk wk',
      slotStep va k cr wk ev wk' ∧ wallclock wk = wallclock w) crs evs.
Proof.
  induction 1 as [|i cr crs w ev w1 evs w' Hstep _ IH]; constructor.
  - by exists i, w, w1.
  - destruct (slotStep_frame _ _ _ _ _ _ Hstep) as [_ Hclock].
    eapply Forall2_impl; [exact IH|].
    intros cr' ev' (k & wk & wk' & ? & ?). exists k, wk, wk'.
    split; [done|congruence].
Qed.

(** Two iterations for the same result agree on everything but the measured
    duration, whatever the index, the clock and the trace. *)
Lemma slotStep_agree va i j cr w1 ev1 w1' w2 ev2 w2' :
  slotStep va i cr w1 ev1 w1' →
  slotStep va j cr w2 ev2 w2' →
  EvaluationResult.EvalResult ev1 = EvaluationResult.EvalResult ev2
  ∧ EvaluationResult.Error ev1 = EvaluationResult.Error ev2
  ∧ EvaluationResult.ExpressionAccessor ev1
      = EvaluationResult.ExpressionAccessor ev2.
Proof. destruct 1, 1; simpl; repeat split; congruence. Qed.

(** A slot is free of error exactly when its result was runnable and the
    program signalled no error; a slot never holds both a value and an
    error. *)
Lemma slotStep_error va i cr w ev w' :
  slotStep va i cr w ev w' →
  (EvaluationResult.Error ev = None
   ↔ ∃ program, runnable cr = Some program
       ∧ (Eval program (asActivation va)).2 = None)
  ∧ (EvaluationResult.Error ev = None ∨ EvaluationResult.EvalResult ev = None).
Proof.
  destruct 1 as [cerr Herr|Herr Hprog|p v err Herr Hprog Heval|p v Herr Hprog Heval];
    rewrite /runnable Herr /=; (split; [split|by auto]).
  - done.
  - by intros (? & ? & _).
  - done.
  - intros (? & ? & _). congruence.
  - done.
  - intros (p' & Hp' & Hnone). rewrite Hprog in Hp'. simplify_eq.
    by rewrite Heval in Hnone.
  - intros _. exists p. by rewrite Heval.
  - done.
Qed.


(** ** Further properties of [ForInput], [Compile] and [CompilationErrors] *)

(** X1. For any filter, also one made by [NewFilter] from results a compiler
    never produced, a call without top-level error fills one slot per stored
    result, slot [i] carrying the accessor stored in result [i]; a call with
    a top-level error returns the nil list and leaves the world as it was. *)
Theorem ForInput_slots_aligned versionedAttr versionedParams request w :
  ∃ evaluations err w',
    ForInput versionedAttr versionedParams request w = ((evaluations, err), w')
    ∧ match err with
      | Some _ => evaluations = [] ∧ w' = w
      | None =>
          Forall2 (λ cr ev,
              EvaluationResult.ExpressionAccessor ev
                = Some (CompilationResult.ExpressionAccessor cr))
            (compilationResults (this w)) evaluations
      end.
Proof.
  destruct (ForInput_outcome versionedAttr versionedParams request)
    as [(err & Hrun & _)|(? & ? & ? & ? & _ & _ & _ & _ & Hrun)].
  - by exists [], (Some err), w.
  - destruct (Hrun w) as (evaluations & w' & -> & Hsteps).
    exists evaluations, None, w'. split; [done|].
    eapply Forall2_impl; [by eapply loopSteps_slots|].
    intros cr ev (k & wk & wk' & Hstep & _). by eapply slotStep_accessor.
Qed.





(** X3. The conversions are tried in the order old object, new object,
    params, request, and the first one to fail decides the error returned:
    failures of later inputs are masked. *)
Theorem ForInput_first_failure_wins versionedAttr versionedParams request w err :
  (objectToResolveVal (VersionedOldObject versionedAttr) = Err err →
   ForInput versionedAttr versionedParams request w = (([], Some err), w))
  ∧ (∀ oldObjectVal,
       objectToResolveVal (VersionedOldObject versionedAttr) = Ok oldObjectVal →
       objectToResolveVal (VersionedObject versionedAttr) = Err err →
       ForInput versionedAttr versionedParams request w = (([], Some err), w))
  ∧ (∀ oldObjectVal objectVal,
       objectToResolveVal (VersionedOldObject versionedAttr) = Ok oldObjectVal →
       objectToResolveVal (VersionedObject versionedAttr) = Ok objectVal →
       objectToResolveVal versionedParams = Err err →
       ForInput versionedAttr versionedParams request w = (([], Some err), w))
  ∧ (∀ oldObjectVal objectVal paramsVal,
       objectToResolveVal (VersionedOldObject versionedAttr) = Ok oldObjectVal →
       objectToResolveVal (VersionedObject versionedAttr) = Ok objectVal →
       objectToResolveVal versionedParams = Ok paramsVal →
       convertObjectToUnstructured (requestAsAny request) = Err err →
       ForInput versionedAttr versionedParams request w = (([], Some err), w)).
Proof.
  repeat split.
  - intros Hold. by rewrite /ForInput /bind /getThis /ret Hold.
  - intros ? Hold Hnew. by rewrite /ForInput /bind /getThis /ret Hold Hnew.
  - intros ? ? Hold Hnew Hparams.
    by rewrite /ForInput /bind /getThis /ret Hold Hnew Hparams.
  - intros ? ? ? Hold Hnew Hparams Hreq.
    by rewrite /ForInput /bind /getThis /ret Hold Hnew Hparams Hreq.
Qed.

(** X4. [objectToResolveVal] yields the nil interface exactly for an absent
    object, an error exactly when the converter rejects a present object (the
    converter's own error), and otherwise the converter's mapping as a map
    value; a present object never resolves to the nil interface, even when
    the converter answers with the nil map. *)
Theorem objectToResolveVal_cases (r : runtime_Object) :
  (objectToResolveVal r = Ok Nil ↔ r = NilObject ∨ r = ObjectOf None)
  ∧ (∀ err, objectToResolveVal r = Err err
       ↔ ∃ o, r = ObjectOf (Some o)
           ∧ ToUnstructured (ObjectPtr (Some o)) = Err err)
  ∧ (∀ m, objectToResolveVal r = Ok (MapVal m)
       ↔ ∃ o, r = ObjectOf (Some o)
           ∧ ToUnstructured (ObjectPtr (Some o)) = Ok m)
  ∧ (∀ v, objectToResolveVal r = Ok v → v = Nil ∨ ∃ m, v = MapVal m).
Proof.
  destruct r as [|[o|]];
    rewrite /objectToResolveVal /convertObjectToUnstructured /=.
  - split; [split; [by left|done]|].
    split; [intros err; split; [done|by intros (? & ? & _)]|].
    split; [intros m; split; [done|by intros (? & ? & _)]|].
    intros v [= <-]. by left.
  - destruct (ToUnstructured (ObjectPtr (Some o))) as [m|e] eqn:Hconv; simpl.
    + split; [split; [done|by intros [|]]|].
      split.
      { intros err. split; [done|].
        intros (o' & [= <-] & He). rewrite Hconv in He. done. }
      split.
      * intros m'. split; [intros [= <-]; by exists o|].
        intros (o' & [= <-] & Hm). rewrite Hconv in Hm. by injection Hm as ->.
      * intros v [= <-]. right. by exists m.
    + split; [split; [done|by intros [|]]|].
      split.
      * intros err. split; [intros [= <-]; by exists o|].
        intros (o' & [= <-] & He). rewrite Hconv in He. by injection He as ->.
      * split; [|done]. intros m. split; [done|].
        intros (o' & [= <-] & Hm). rewrite Hconv in Hm. done.
  - split; [split; [by right|done]|].
    split; [intros err; split; [done|by intros (? & ? & _)]|].
    split; [intros m; split; [done|by intros (? & ? & _)]|].
    intros v [= <-]. by left.
Qed.

(** X5. After [Compile], [CompilationErrors] lists the errors the compiler
    recorded, in the order of the expressions, skipping those that compiled;
    [Compile] returns no filter only for the empty list. *)
Theorem Compile_CompilationErrors
    (expressionAccessors : list ExpressionAccessor) (hasParam : bool)
    (clock : nat → Time) (elapsed : nat) (calls : list EvalCall) :
  match Compile expressionAccessors hasParam with
  | None => expressionAccessors = []
  | Some f =>
      let w := {| this := f; wallclock := clock; ticks := elapsed;
                  evalCalls := calls |} in
      CompilationErrors w
      = (omap (λ expressionAccessor,
            CompilationResult.Error
              (CompileCELExpression expressionAccessor hasParam))
           expressionAccessors, w)
  end.
Proof.
  unfold Compile, NewFilter.
  destruct expressionAccessors as [|e es] eqn:Hexprs; [done|].
  rewrite -Hexprs. replace (length expressionAccessors =? 0) with false
    by by rewrite Hexprs.
  rewrite /CompilationErrors /bind /getThis /ret /= CompilationErrors_foldl /=.
  f_equal. clear Hexprs. induction expressionAccessors as [|a l IH]; [done|].
  csimpl. by rewrite IH.
Qed.

(** X6. An evaluation leaves the answer of [CompilationErrors] as it was,
    whether the call converts its inputs or not. *)
Theorem CompilationErrors_stable_across_ForInput
    versionedAttr versionedParams request w :
  (CompilationErrors (ForInput versionedAttr versionedParams request w).2).1
  = (CompilationErrors w).1.
Proof.
  assert (Hthis : this (ForInput versionedAttr versionedParams request w).2
                  = this w).
  { destruct (ForInput_outcome versionedAttr versionedParams request)
      as [(err & Hrun & _)|(? & ? & ? & ? & _ & _ & _ & _ & Hrun)].
    - by rewrite Hrun.
    - destruct (Hrun w) as (evaluations & w' & -> & Hsteps). simpl.
      by apply loopSteps_frame in Hsteps as [-> _]. }
  by rewrite /CompilationErrors /bind /getThis /ret /= Hthis.
Qed.

Section Evaluation.
Context (versionedAttr : VersionedAttributes) (versionedParams : runtime_Object)
  (admissionRequest : option AdmissionRequest)
  (oldObjectVal objectVal paramsVal : any) (requestVal : Unstructured).
Hypothesis oldObject_converts :
  objectToResolveVal (VersionedOldObject versionedAttr) = Ok oldObjectVal.
Hypothesis object_converts :
  objectToResolveVal (VersionedObject versionedAttr) = Ok objectVal.
Hypothesis params_convert :
  objectToResolveVal versionedParams = Ok paramsVal.
Hypothesis request_converts :
  convertObjectToUnstructured (requestAsAny admissionRequest) = Ok requestVal.

Let va : evaluationActivation :=
  {| object := objectVal; oldObject := oldObjectVal; params := paramsVal;
     request := MapVal (Object requestVal) |}.

Lemma ForInput_loop w :
  ∃ evaluations w',
    ForInput versionedAttr versionedParams admissionRequest w
      = ((evaluations, None), w')
    ∧ loopSteps va 0 (compilationResults (this w)) w evaluations w'.
Proof using All.
  exact (ForInput_converted versionedAttr versionedParams admissionRequest
           _ _ _ _ w oldObject_converts object_converts params_convert
           request_converts).
Qed.

(** X7. A call whose inputs convert runs exactly the programs of the results
    that have one and carry no compile error, once each and in stored order,
    all on the same activation; it reads the clock twice per program run and
    leaves the clock's readings and the earlier trace untouched. *)
Theorem ForInput_runs_programs_in_order w :
  ∃ evaluations w',
    ForInput versionedAttr versionedParams admissionRequest w
      = ((evaluations, None), w')
    ∧ evalCalls w'
      = evalCalls w ++ expectedCalls va 0 (compilationResults (this w))
    ∧ ticks w'
      = ticks w + 2 * length (expectedCalls va 0 (compilationResults (this w)))
    ∧ wallclock w' = wallclock w.
Proof using All.
  destruct (ForInput_loop w) as (evaluations & w' & Hrun & Hsteps).
  exists evaluations, w'. split; [done|].
  destruct (loopSteps_trace _ _ _ _ _ _ Hsteps) as [? ?].
  by destruct (loopSteps_frame _ _ _ _ _ _ Hsteps) as [_ ?].
Qed.

(** X8. In a call whose inputs convert, a slot is free of error exactly when
    its result had a program and no compile error and that program signalled
    no error on the call's activation; and no slot holds both a value and an
    error. *)
Theorem ForInput_slot_error_iff w :
  ∃ evaluations w',
    ForInput versionedAttr versionedParams admissionRequest w
      = ((evaluations, None), w')
    ∧ Forall2 (λ cr ev,
          (EvaluationResult.Error ev = None
           ↔ ∃ program, runnable cr = Some program
               ∧ (Eval program (asActivation va)).2 = None)
          ∧ (EvaluationResult.Error ev = None
             ∨ EvaluationResult.EvalResult ev = None))
        (compilationResults (this w)) evaluations.
Proof using All.
  destruct (ForInput_loop w) as (evaluations & w' & Hrun & Hsteps).
  exists evaluations, w'. split; [done|].
  eapply Forall2_impl; [by eapply loopSteps_slots|].
  intros cr ev (k & wk & wk' & Hstep & _). by eapply slotStep_error.
Qed.

(** X9. The outcome of an expression does not depend on the filter it sits
    in: for the same inputs, the slots of one compilation result in two
    filters, at whatever positions, agree on accessor, value and error. *)
Theorem ForInput_slot_local w1 w2 i j cr :
  compilationResults (this w1) !! i = Some cr →
  compilationResults (this w2) !! j = Some cr →
  ∃ evaluations1 w1' evaluations2 w2' ev1 ev2,
    ForInput versionedAttr versionedParams admissionRequest w1
      = ((evaluations1, None), w1')
    ∧ ForInput versionedAttr versionedParams admissionRequest w2
        = ((evaluations2, None), w2')
    ∧ evaluations1 !! i = Some ev1
    ∧ evaluations2 !! j = Some ev2
    ∧ EvaluationResult.EvalResult ev1 = EvaluationResult.EvalResult ev2
    ∧ EvaluationResult.Error ev1 = EvaluationResult.Error ev2
    ∧ EvaluationResult.ExpressionAccessor ev1
        = EvaluationResult.ExpressionAccessor ev2.
Proof using All.
  intros Hi Hj.
  destruct (ForInput_loop w1) as (evaluations1 & w1' & Hrun1 & Hsteps1).
  destruct (ForInput_loop w2) as (evaluations2 & w2' & Hrun2 & Hsteps2).
  destruct (loopSteps_lookup _ _ _ _ _ _ _ _ Hsteps1 Hi)
    as (ev1 & wk1 & wk1' & Hev1 & Hstep1).
  destruct (loopSteps_lookup _ _ _ _ _ _ _ _ Hsteps2 Hj)
    as (ev2 & wk2 & wk2' & Hev2 & Hstep2).
  exists evaluations1, w1', evaluations2, w2', ev1, ev2.
  do 4 (split; [done|]). by eapply slotStep_agree.
Qed.

(** X10. Every program run by a call whose inputs convert sees [object]
    bound to the converted new object, [oldObject] to the converted old
    object, [params] to the converted params and [request] to the converted
    request, and no parent activation. *)
Theorem ForInput_binds_variables w :
  ∃ evaluations w' new,
    ForInput versionedAttr versionedParams admissionRequest w
      = ((evaluations, None), w')
    ∧ evalCalls w' = evalCalls w ++ new
    ∧ Forall (λ c,
          Activation_ResolveName (call_activation c) "object" = (objectVal, true)
          ∧ Activation_ResolveName (call_activation c) "oldObject"
              = (oldObjectVal, true)
          ∧ Activation_ResolveName (call_activation c) "params"
              = (paramsVal, true)
          ∧ Activation_ResolveName (call_activation c) "request"
              = (MapVal (Object requestVal), true)
          ∧ Activation_Parent (call_activation c) = None) new.
Proof using All.
  destruct (ForInput_loop w) as (evaluations & w' & Hrun & Hsteps).
  destruct (loopSteps_trace _ _ _ _ _ _ Hsteps) as [Htrace _].
  exists evaluations, w', (expectedCalls va 0 (compilationResults (this w))).
  do 2 (split; [done|]).
  eapply Forall_impl; [apply expectedCalls_activation|].
  by intros c ->.
Qed.

(** X11. Every error that [CompilationErrors] reports shows up, wrapped as a
    compilation error and without a value, in a slot of every call whose
    inputs convert. *)
Theorem ForInput_reports_compilation_errors w :
  ∃ evaluations w',
    ForInput versionedAttr versionedParams admissionRequest w
      = ((evaluations, None), w')
    ∧ Forall (λ cerr, ∃ i ev,
          evaluations !! i = Some ev
          ∧ EvaluationResult.Error ev
              = Some (errors_New ("compilation error: " +:+ error_Error cerr))
          ∧ EvaluationResult.EvalResult ev = None)
        (CompilationErrors w).1.
Proof using All.
  destruct (ForInput_loop w) as (evaluations & w' & Hrun & Hsteps).
  exists evaluations, w'. split; [done|].
  rewrite /CompilationErrors /bind /getThis /ret /= CompilationErrors_foldl /=.
  apply Forall_forall. intros cerr (cr & Hcr & Herr)%list_elem_of_omap.
  apply list_elem_of_lookup in Hcr as [i Hi].
  destruct (loopSteps_lookup _ _ _ _ _ _ _ _ Hsteps Hi)
    as (ev & wk & wk' & Hev & Hstep).
  destruct (slotStep_not_run _ _ _ _ _ _ Hstep) as (? & _ & Hmsg);
    [left; congruence|].
  rewrite Herr in Hmsg. by exists i, ev.
Qed.

End Evaluation.

End Properties.

(** ** The admission request *)

Section RequestProperties.
Context {T : Types}.
Variable rangeOrder : gmap string (list string) → list (string * list string).
Hypothesis rangeOrder_visits_each_entry_once :
  ∀ m, rangeOrder m ≡ₚ map_to_list m.

Lemma foldl_insert_list_to_map (l : list (string * list string))
    (acc : gmap string (list string)) :
  foldl (λ Extra entry, <[entry.1 := entry.2]> Extra) acc l
  = foldr (λ entry Extra, <[entry.1 := entry.2]> Extra) acc (reverse l).
Proof.
  revert acc. induction l as [|entry l IH]; intros acc; [done|].
  by rewrite reverse_cons foldr_app /= IH.
Qed.

(** Whatever the order of the visit, the copy is the map itself. *)
Lemma copyExtra_id (extra : gmap string (list string)) :
  copyExtra rangeOrder extra = extra.
Proof using rangeOrder_visits_each_entry_once.
  unfold copyExtra. rewrite foldl_insert_list_to_map.
  rewrite -{2}(list_to_map_to_list extra).
  apply (list_to_map_proper (reverse (rangeOrder extra)) (map_to_list extra)).
  - setoid_rewrite reverse_Permutation.
    setoid_rewrite (rangeOrder_visits_each_entry_once extra).
    apply NoDup_fst_map_to_list.
  - by setoid_rewrite reverse_Permutation.
Qed.

(** X12. [CreateAdmissionRequest] always returns a request. Without user
    information its [UserInfo] is the zero value, with the nil [Extra] map;
    with user information it carries the name, UID and groups and a non-nil
    [Extra] map with exactly the user's extra entries, whatever the order in
    which the map is visited. *)
Theorem CreateAdmissionRequest_user_info (attr : Attributes.t runtime_Object) :
  ∃ req, CreateAdmissionRequest rangeOrder attr = Some req
    ∧ Request.UserInfo req
      = match Attributes.GetUserInfo attr with
        | None => UserInfo.zero
        | Some aUserInfo =>
            UserInfo.mk (UserInfoSource.GetName aUserInfo)
              (UserInfoSource.GetUID aUserInfo)
              (UserInfoSource.GetGroups aUserInfo)
              (Some (UserInfoSource.GetExtra aUserInfo))
        end.
Proof using rangeOrder_visits_each_entry_once.
  eexists. split; [done|]. simpl.
  destruct (Attributes.GetUserInfo attr) as [aUserInfo|]; [|done].
  by rewrite copyExtra_id.
Qed.

End RequestProperties.

(** * The scenario, end to end *)

#[local] Existing Instances Scenario.types Scenario.collaborators.

(** The scenario's compiler hands back the accessor it was given. *)
Lemma Scenario_compile_accessor (e : string) (b : bool) :
  CompilationResult.ExpressionAccessor (Scenario.compile e b) = e.
Proof. unfold Scenario.compile. by repeat case_match. Qed.

(** C1 at work: three expressions, the last of which does not compile, on an
    object that converts: three slots, in order. *)
Lemma Compile_ForInput_positional_witness :
  ∃ f, Compile ["object.replicas > 0"; "object.bogus.field"; "x +"] false = Some f
    ∧ ∃ evaluations w',
        ForInput (Scenario.create Scenario.threeReplicas) NilObject (Some "r")
          (Scenario.world f) = ((evaluations, None), w')
        ∧ length evaluations = 3
        ∧ (∃ ev, evaluations !! 2 = Some ev
             ∧ EvaluationResult.ExpressionAccessor ev = Some "x +").
Proof.
  destruct (Compile_ForInput_positional
              (T := Scenario.types) (C := Scenario.collaborators)
              (Scenario.create Scenario.threeReplicas) NilObject (Some "r")
              Nil Scenario.threeReplicasVal Nil Scenario.requestVal
              eq_refl eq_refl eq_refl eq_refl
              ["object.replicas > 0"; "object.bogus.field"; "x +"] false
              Scenario_compile_accessor ltac:(discriminate))
    as (f & Hf & _ & _ & Hrun).
  exists f. split; [exact Hf|].
  destruct (Hrun (Scenario.world f) eq_refl) as (evaluations & w' & Heq & Hlen & Hslot).
  exists evaluations, w'. split; [exact Heq|]. split; [exact Hlen|].
  exact (Hslot 2 "x +" eq_refl).
Defined.

(** C1 as stated fails when the new object does not convert: the filter
    holds one result, the call returns the nil list. *)
Lemma ForInput_unconverted_input_has_no_slots :
  ∃ f, Compile ["object.replicas > 0"] false = Some f
    ∧ length (compilationResults f) = 1
    ∧ ForInput (Scenario.create Scenario.unrepresentable) NilObject (Some "r")
        (Scenario.world f)
      = (([], Some (errors_New "unrecognized type: chan")), Scenario.world f)
    ∧ length (ForInput (Scenario.create Scenario.unrepresentable) NilObject
                (Some "r") (Scenario.world f)).1.1 = 0.
Proof. eexists. by repeat split. Qed.

(** C2 at work: the failing expression comes first; the one after it is
    still run. *)
Lemma ForInput_evaluation_error_isolated_witness :
  let f := {| compilationResults :=
                [Scenario.compile "object.bogus.field" false;
                 Scenario.compile "object.replicas > 0" false] |} in
  ∃ evaluations w',
    ForInput (Scenario.create Scenario.threeReplicas) NilObject (Some "r")
      (Scenario.world f) = ((evaluations, None), w')
    ∧ (∃ ev, evaluations !! 0 = Some ev
         ∧ EvaluationResult.Error ev
             = Some (errors_New
                 "expression 'object.bogus.field' resulted in error: no such key: bogus")
         ∧ EvaluationResult.EvalResult ev = None)
    ∧ (∃ ev, evaluations !! 1 = Some ev
         ∧ EvaluationResult.EvalResult ev = Some true
         ∧ EvaluationResult.Error ev = None).
Proof.
  intros f.
  destruct (ForInput_evaluation_error_isolated
              (T := Scenario.types) (C := Scenario.collaborators)
              (Scenario.create Scenario.threeReplicas) NilObject (Some "r")
              Nil Scenario.threeReplicasVal Nil Scenario.requestVal
              eq_refl eq_refl eq_refl eq_refl
              (Scenario.world f) 0 (Scenario.compile "object.bogus.field" false)
              Scenario.bogusField None (errors_New "no such key: bogus")
              eq_refl eq_refl eq_refl eq_refl)
    as (evaluations & w' & new & Hrun & _ & Hslot & Hlater).
  exists evaluations, w'. split; [exact Hrun|]. split; [exact Hslot|].
  destruct (Hlater 1 (Scenario.compile "object.replicas > 0" false)
              Scenario.replicasPositive ltac:(lia) eq_refl eq_refl eq_refl)
    as (_ & ev & Hev & Hvalue).
  exists ev. split; [exact Hev|]. exact Hvalue.
Defined.

(** C3 at work: [A] does not compile, [B] compiles and evaluates to [true]. *)
Lemma ForInput_compile_failures_isolated_witness :
  let f := {| compilationResults :=
                [Scenario.compile "x +" false;
                 Scenario.compile "object.replicas > 0" false] |} in
  ∃ evA evB w',
    ForInput (Scenario.create Scenario.threeReplicas) NilObject (Some "r")
      (Scenario.world f) = (([evA; evB], None), w')
    ∧ EvaluationResult.Error evA
        = Some (errors_New "compilation error: Syntax error: mismatched input")
    ∧ EvaluationResult.EvalResult evB = Some true
    ∧ EvaluationResult.Error evB = None.
Proof.
  intros f.
  destruct (ForInput_compile_failures_isolated
              (T := Scenario.types) (C := Scenario.collaborators)
              (Scenario.create Scenario.threeReplicas) NilObject (Some "r")
              Nil Scenario.threeReplicasVal Nil Scenario.requestVal
              eq_refl eq_refl eq_refl eq_refl (Scenario.world f))
    as (evaluations & w' & new & Hrun & _ & _ & _ & Hmixed).
  destruct (Hmixed (Scenario.compile "x +" false)
              (Scenario.compile "object.replicas > 0" false)
              (errors_New "Syntax error: mismatched input")
              Scenario.replicasPositive true eq_refl eq_refl eq_refl eq_refl eq_refl)
    as (evA & evB & Hevs & HerrA & HvalB & HerrB).
  exists evA, evB, w'. rewrite -Hevs. by repeat split.
Defined.

(** C3 as stated fails twice over. When [B] compiles but its program signals
    an error on the input, [B]'s slot has an error and no value; and when an
    input does not convert, the call yields no slot at all, so none records
    the compile error of [A]. *)
Lemma compiled_expression_may_fail_at_evaluation :
  let A := Scenario.compile "x +" false in
  let B := Scenario.compile "object.bogus.field" false in
  CompilationResult.Error A = Some (errors_New "Syntax error: mismatched input")
  ∧ CompilationResult.Error B = None
  ∧ CompilationResult.Program B = Some Scenario.bogusField
  ∧ (∃ evA evB w',
       ForInput (Scenario.create Scenario.threeReplicas) NilObject (Some "r")
         (Scenario.world {| compilationResults := [A; B] |})
       = (([evA; evB], None), w')
       ∧ EvaluationResult.EvalResult evB = None
       ∧ EvaluationResult.Error evB
           = Some (errors_New
               "expression 'object.bogus.field' resulted in error: no such key: bogus"))
  ∧ ForInput (Scenario.create Scenario.unrepresentable) NilObject (Some "r")
      (Scenario.world {| compilationResults := [A; B] |})
    = (([], Some (errors_New "unrecognized type: chan")),
       Scenario.world {| compilationResults := [A; B] |}).
Proof.
  intros A B. do 3 (split; [reflexivity|]). split; [|reflexivity].
  eexists _, _, _. split; [compute; reflexivity|]. split; reflexivity.
Qed.

(** C4 at work: a new object the converter cannot represent. *)
Lemma ForInput_conversion_failure_aborts_witness :
  ∃ f, Compile ["object.replicas > 0"] false = Some f
    ∧ ∃ err,
        ForInput (Scenario.create Scenario.unrepresentable) NilObject (Some "r")
          (Scenario.world f) = (([], Some err), Scenario.world f).
Proof.
  eexists. split; [reflexivity|].
  apply ForInput_conversion_failure_aborts.
  right; left. eexists. reflexivity.
Defined.

(** A program run on absent inputs finds [object] and [params] bound to nil:
    here the new object is a nil pointer, the params object the nil interface
    and the request a nil pointer. *)
Example absent_inputs_reach_the_program :
  ∃ f, Compile ["object == null && params == null"] true = Some f
    ∧ ∃ ev w',
        ForInput (Scenario.create (ObjectOf None)) NilObject None (Scenario.world f)
          = (([ev], None), w')
        ∧ EvaluationResult.EvalResult ev = Some true
        ∧ EvaluationResult.Error ev = None
        ∧ length (evalCalls w') = 1.
Proof.
  eexists. split; [reflexivity|].
  eexists _, _. split; [compute; reflexivity|]. by repeat split.
Qed.

(** The same call under two clocks: the values agree, the durations do not. *)
Example elapsed_depends_on_the_clock :
  ∃ f, Compile ["object.replicas > 0"] false = Some f
    ∧ ∃ ev1 ev2 w1' w2',
        ForInput (Scenario.create Scenario.threeReplicas) NilObject (Some "r")
          {| this := f; wallclock := Scenario.clock; ticks := 0; evalCalls := [] |}
          = (([ev1], None), w1')
        ∧ ForInput (Scenario.create Scenario.threeReplicas) NilObject (Some "r")
            {| this := f; wallclock := λ n, (7 * Z.of_nat n)%Z; ticks := 4;
               evalCalls := [] |}
            = (([ev2], None), w2')
        ∧ EvaluationResult.EvalResult ev1 = Some true
        ∧ EvaluationResult.EvalResult ev2 = Some true
        ∧ EvaluationResult.Elapsed ev1 = 5%Z
        ∧ EvaluationResult.Elapsed ev2 = 7%Z.
Proof.
  eexists. split; [reflexivity|].
  eexists _, _, _, _. split; [compute; reflexivity|].
  split; [compute; reflexivity|]. by repeat split.
Qed.

(** The defensive branch: a result with neither program nor error. *)
Example missing_program_is_an_internal_error :
  ∃ ev w',
    ForInput (Scenario.create Scenario.threeReplicas) NilObject (Some "r")
      (Scenario.world
         {| compilationResults := [CompilationResult.mk None None "lost"] |})
      = (([ev], None), w')
    ∧ EvaluationResult.Error ev
        = Some (errors_New "unexpected internal error compiling expression")
    ∧ EvaluationResult.ExpressionAccessor ev = Some "lost"
    ∧ evalCalls w' = [].
Proof. eexists _, _. split; [compute; reflexivity|]. by repeat split. Qed.

(** * The further properties, end to end *)


(** X3 at work: the old and the new object are both rejected; the error of
    the old object is the one returned. *)
Lemma ForInput_first_failure_wins_witness :
  let attr := {| VersionedOldObject := Rejecting.object1;
                 VersionedObject := Rejecting.object2 |} in
  let w := Rejecting.world {| compilationResults := [] |} in
  objectToResolveVal (C := Rejecting.collaborators) (VersionedObject attr)
    = Err (errors_New "cannot convert object 2")
  ∧ ForInput (C := Rejecting.collaborators) attr Rejecting.object2 None w
    = (([], Some (errors_New "cannot convert object 1")), w).
Proof.
  intros attr w. split; [reflexivity|].
  destruct (ForInput_first_failure_wins
              (T := Scenario.types) (C := Rejecting.collaborators)
              attr Rejecting.object2 None w
              (errors_New "cannot convert object 1")) as [Hold _].
  exact (Hold eq_refl).
Defined.

(** X7 at work: of three results the first did not compile; the programs of
    the other two are run in order, with four readings of the clock. *)
Lemma ForInput_runs_programs_in_order_witness :
  let f := {| compilationResults :=
                [Scenario.compile "x +" false;
                 Scenario.compile "object.bogus.field" false;
                 Scenario.compile "object.replicas > 0" false] |} in
  ∃ evaluations w',
    ForInput (Scenario.create Scenario.threeReplicas) NilObject (Some "r")
      (Scenario.world f) = ((evaluations, None), w')
    ∧ call_index <$> evalCalls w' = [1; 2]
    ∧ call_program <$> evalCalls w'
      = [Scenario.bogusField; Scenario.replicasPositive]
    ∧ ticks w' = 4.
Proof.
  intros f.
  destruct (ForInput_runs_programs_in_order
              (T := Scenario.types) (C := Scenario.collaborators)
              (Scenario.create Scenario.threeReplicas) NilObject (Some "r")
              Nil Scenario.threeReplicasVal Nil Scenario.requestVal
              eq_refl eq_refl eq_refl eq_refl (Scenario.world f))
    as (evaluations & w' & Hrun & Htrace & Hticks & _).
  exists evaluations, w'. split; [exact Hrun|].
  rewrite Htrace Hticks. by repeat split.
Defined.

(** X8 at work, on the same three results. *)
Lemma ForInput_slot_error_iff_witness :
  let f := {| compilationResults :=
                [Scenario.compile "x +" false;
                 Scenario.compile "object.bogus.field" false;
                 Scenario.compile "object.replicas > 0" false] |} in
  ∃ evaluations w',
    ForInput (Scenario.create Scenario.threeReplicas) NilObject (Some "r")
      (Scenario.world f) = ((evaluations, None), w')
    ∧ length evaluations = 3
    ∧ Forall (λ ev, EvaluationResult.Error ev = None
                    ∨ EvaluationResult.EvalResult ev = None) evaluations.
Proof.
  intros f.
  destruct (ForInput_slot_error_iff
              (T := Scenario.types) (C := Scenario.collaborators)
              (Scenario.create Scenario.threeReplicas) NilObject (Some "r")
              Nil Scenario.threeReplicasVal Nil Scenario.requestVal
              eq_refl eq_refl eq_refl eq_refl (Scenario.world f))
    as (evaluations & w' & Hrun & Hslots).
  exists evaluations, w'. split; [exact Hrun|]. split.
  - symmetry. exact (Forall2_length _ _ _ Hslots).
  - apply (Forall2_Forall_r _ _ _ _ Hslots). apply Forall_true.
    intros cr ev [_ Hxor]. exact Hxor.
Defined.

(** X9 at work: the same expression second in one filter, first in another. *)
Lemma ForInput_slot_local_witness :
  let cr := Scenario.compile "object.replicas > 0" false in
  let f1 := {| compilationResults :=
                 [Scenario.compile "object.bogus.field" false; cr] |} in
  let f2 := {| compilationResults := [cr; Scenario.compile "x +" false] |} in
  ∃ evaluations1 w1' evaluations2 w2' ev1 ev2,
    ForInput (Scenario.create Scenario.threeReplicas) NilObject (Some "r")
      (Scenario.world f1) = ((evaluations1, None), w1')
    ∧ ForInput (Scenario.create Scenario.threeReplicas) NilObject (Some "r")
        (Scenario.world f2) = ((evaluations2, None), w2')
    ∧ evaluations1 !! 1 = Some ev1
    ∧ evaluations2 !! 0 = Some ev2
    ∧ EvaluationResult.EvalResult ev1 = EvaluationResult.EvalResult ev2
    ∧ EvaluationResult.Error ev1 = EvaluationResult.Error ev2
    ∧ EvaluationResult.ExpressionAccessor ev1
        = EvaluationResult.ExpressionAccessor ev2.
Proof.
  intros cr f1 f2.
  exact (ForInput_slot_local
           (T := Scenario.types) (C := Scenario.collaborators)
           (Scenario.create Scenario.threeReplicas) NilObject (Some "r")
           Nil Scenario.threeReplicasVal Nil Scenario.requestVal
           eq_refl eq_refl eq_refl eq_refl
           (Scenario.world f1) (Scenario.world f2) 1 0 cr eq_refl eq_refl).
Defined.

(** X10 at work: the one program run sees the converted new object. *)
Lemma ForInput_binds_variables_witness :
  let f := {| compilationResults :=
                [Scenario.compile "object.replicas > 0" false] |} in
  ∃ evaluations w' c,
    ForInput (Scenario.create Scenario.threeReplicas) NilObject (Some "r")
      (Scenario.world f) = ((evaluations, None), w')
    ∧ evalCalls w' = [c]
    ∧ Activation_ResolveName (call_activation c) "object"
        = (Scenario.threeReplicasVal, true)
    ∧ Activation_ResolveName (call_activation c) "oldObject" = (Nil, true).
Proof.
  intros f.
  destruct (ForInput_binds_variables
              (T := Scenario.types) (C := Scenario.collaborators)
              (Scenario.create Scenario.threeReplicas) NilObject (Some "r")
              Nil Scenario.threeReplicasVal Nil Scenario.requestVal
              eq_refl eq_refl eq_refl eq_refl (Scenario.world f))
    as (evaluations & w' & new & Hrun & Htrace & Hbound).
  assert (Hcalls :
    evalCalls (ForInput (Scenario.create Scenario.threeReplicas) NilObject
                 (Some "r") (Scenario.world f)).2
    = [{| call_index := 0; call_program := Scenario.replicasPositive;
          call_activation :=
            asActivation
              {| object := Scenario.threeReplicasVal; oldObject := Nil;
                 params := Nil;
                 request := MapVal (Object Scenario.requestVal) |} |}])
    by reflexivity.
  rewrite Hrun Htrace /= in Hcalls. rewrite Hcalls in Hbound Htrace.
  eexists evaluations, w', _. split; [exact Hrun|]. split; [exact Htrace|].
  apply Forall_singleton in Hbound as (Hobject & Hold & _).
  by split.
Defined.

(** X11 at work: the one compile error of the filter shows up in a slot. *)
Lemma ForInput_reports_compilation_errors_witness :
  let f := {| compilationResults :=
                [Scenario.compile "object.replicas > 0" false;
                 Scenario.compile "x +" false] |} in
  (CompilationErrors (Scenario.world f)).1
    = [errors_New "Syntax error: mismatched input"]
  ∧ ∃ evaluations w' i ev,
      ForInput (Scenario.create Scenario.threeReplicas) NilObject (Some "r")
        (Scenario.world f) = ((evaluations, None), w')
      ∧ evaluations !! i = Some ev
      ∧ EvaluationResult.Error ev
          = Some (errors_New "compilation error: Syntax error: mismatched input")
      ∧ EvaluationResult.EvalResult ev = None.
Proof.
  intros f. split; [reflexivity|].
  destruct (ForInput_reports_compilation_errors
              (T := Scenario.types) (C := Scenario.collaborators)
              (Scenario.create Scenario.threeReplicas) NilObject (Some "r")
              Nil Scenario.threeReplicasVal Nil Scenario.requestVal
              eq_refl eq_refl eq_refl eq_refl (Scenario.world f))
    as (evaluations & w' & Hrun & Hreported).
  apply Forall_singleton in Hreported as (i & ev & Hev & Herr & Hval).
  by exists evaluations, w', i, ev.
Defined.

(** X12 at work: a user with two extra entries, visited in the order of the
    map's own enumeration. *)
Lemma CreateAdmissionRequest_user_info_witness :
  ∃ req,
    CreateAdmissionRequest (T := Scenario.types) map_to_list
      (Admission.attributes (Some Admission.alice)) = Some req
    ∧ Request.UserInfo req
      = UserInfo.mk "alice" "uid-1" ["dev"; "ops"]
          (Some (<["scopes" := ["read"; "write"]]> (<["team" := ["a"]]> ∅))).
Proof.
  exact (CreateAdmissionRequest_user_info (T := Scenario.types) map_to_list
           (λ m, reflexivity _) (Admission.attributes (Some Admission.alice))).
Defined.

(** C7 at work: the new object is a nil pointer, the old object and the
    params object the nil interface; the one program is run, finds [object]
    and [params] bound to nil and says so. *)
Lemma ForInput_absent_objects_resolve_nil_witness :
  ∃ evaluations w' c ev,
    ForInput (Scenario.create (ObjectOf None)) NilObject None
      (Scenario.world Observers.absentFilter) = ((evaluations, None), w')
    ∧ c ∈ evalCalls w'
    ∧ Activation_ResolveName (call_activation c) "object" = (Nil, true)
    ∧ Activation_ResolveName (call_activation c) "params" = (Nil, true)
    ∧ evaluations !! 0 = Some ev
    ∧ EvaluationResult.EvalResult ev = Some true
    ∧ EvaluationResult.Error ev = None.
Proof.
  destruct (ForInput_absent_objects_resolve_nil
              (T := Scenario.types) (C := Scenario.collaborators)
              (Scenario.create (ObjectOf None)) NilObject None
              (Scenario.world Observers.absentFilter))
    as (_ & evaluations & err & w' & new & Hrun & Htrace & Herr & Hran & Hbound).
  assert (Hnone : err = None).
  { destruct err as [e|]; [exfalso|reflexivity].
    destruct (Herr e eq_refl) as [[Hpresent _]|[[Hpresent _]|[[Hpresent _]|Hreq]]].
    - apply Hpresent. by left.
    - apply Hpresent. by right.
    - apply Hpresent. by left.
    - discriminate Hreq. }
  subst err.
  destruct (Hran eq_refl 0
              (Scenario.compile "object == null && params == null" true)
              Scenario.absentInputs eq_refl eq_refl eq_refl)
    as (c & ev & Hc & _ & _ & Hev & Hout).
  destruct (Hbound c Hc) as (Hobject & _ & Hparams).
  specialize (Hobject (or_intror eq_refl)).
  specialize (Hparams (or_introl eq_refl)).
  simpl in Hout. rewrite Hobject Hparams in Hout. destruct Hout as [Hval Hnoerr].
  exists evaluations, w', c, ev. split; [exact Hrun|].
  split; [rewrite Htrace; exact Hc|]. by repeat split.
Defined.

(** C10 at work: the request is a nil pointer; the one program is run, finds
    [request] bound to the nil mapping and says so. *)
Lemma ForInput_nil_request_resolves_empty_witness :
  ∃ evaluations w' c ev,
    ForInput (Scenario.create Scenario.threeReplicas) NilObject None
      (Scenario.world Observers.requestFilter) = ((evaluations, None), w')
    ∧ c ∈ evalCalls w'
    ∧ Activation_ResolveName (call_activation c) "request" = (MapVal None, true)
    ∧ evaluations !! 0 = Some ev
    ∧ EvaluationResult.EvalResult ev = Some true
    ∧ EvaluationResult.Error ev = None.
Proof.
  destruct (ForInput_nil_request_resolves_empty
              (T := Scenario.types) (C := Scenario.collaborators)
              (Scenario.create Scenario.threeReplicas) NilObject
              (Scenario.world Observers.requestFilter))
    as (_ & evaluations & err & w' & new & Hrun & Htrace & Herr & Hran & Hbound).
  assert (Hnone : err = None).
  { destruct err as [e|]; [exfalso|reflexivity].
    destruct (Herr e eq_refl) as [Hconv|[Hconv|Hconv]]; discriminate Hconv. }
  subst err.
  destruct (Hran eq_refl 0
              (CompilationResult.mk (Some Observers.requestIsNil) None
                 "request == null")
              Observers.requestIsNil eq_refl eq_refl eq_refl)
    as (c & ev & Hc & _ & _ & Hev & Hout).
  pose proof (Hbound c Hc) as Hrequest.
  simpl in Hout. rewrite Hrequest in Hout. destruct Hout as [Hval Hnoerr].
  exists evaluations, w', c, ev. split; [exact Hrun|].
  split; [rewrite Htrace; exact Hc|]. by repeat split.
Defined.
